(** * AccessNX: the scan workflow of [ScannerPage.tsx]

    A shallow embedding of the scanner page's controller: the URL check
    [validateUrl], the asynchronous handler [handleScan], the keyboard
    handler [handleKeyDown], the guards of the input and the button, and
    the severity ordering [sortedIssues] computed at every render.

    JavaScript strings are modelled by the sequence of their code units;
    [string] carries code units below 256.  The component state is a
    record, the event handlers are state transformers, and the arrays
    referenced from the stored result live in an explicit store, since
    [Array.prototype.sort] works in place. *)

From Stdlib Require Import String Ascii List ZArith NArith Lia Bool.
From Stdlib Require Import Sorting.Sorted Sorting.Permutation.
From stdpp Require Import gmap strings list.

Open Scope string_scope.
Open Scope list_scope.

(** ** String primitives used by the page *)

Module JS.

(** [s.startsWith(searchString)] *)
Definition startsWith (s searchString : string) : bool :=
  String.prefix searchString s.

(** WhiteSpace and LineTerminator code units (ECMA-262, 12.2 and 12.3)
    in the range of [ascii]: TAB, LF, VT, FF, CR, SP and NBSP. *)
Definition isWhiteSpace (c : ascii) : bool :=
  match N_of_ascii c with
  | 9 | 10 | 11 | 12 | 13 | 32 | 160 => true
  | _ => false
  end%N.

Fixpoint trimStart (s : string) : string :=
  match s with
  | EmptyString => EmptyString
  | String c r => if isWhiteSpace c then trimStart r else s
  end.

Fixpoint trimEnd (s : string) : string :=
  match s with
  | EmptyString => EmptyString
  | String c r =>
      match trimEnd r with
      | EmptyString => if isWhiteSpace c then EmptyString else String c EmptyString
      | r' => String c r'
      end
  end.

(** [s.trim()] *)
Definition trim (s : string) : string := trimEnd (trimStart s).

(** ToBoolean on a string: only the empty string is falsy. *)
Definition truthy (s : string) : bool :=
  match s with
  | EmptyString => false
  | String _ _ => true
  end.

(** The template literal [`https://${s}`]. *)
Definition https (s : string) : string := "https://" +:+ s.

End JS.

(** ** The platform's URL constructor

    [new URL(s)] (one argument, no base) throws exactly when the basic
    URL parser of the WHATWG URL standard returns failure.  The module
    follows that parser's states as far as success and failure are
    concerned.  Hosts that need IDNA processing (a code unit above 127
    after percent-decoding, or a label starting with xn--) are outside the
    modelled fragment: [parse] answers [Unmodelled] on them.  One such
    host is decided all the same: domain-to-ASCII maps a no-break space
    to a space, which is a forbidden domain code point, so a domain with
    a no-break space in it is a failure. *)

Module URL.

Inductive outcome := Parsed | Failure | Unmodelled.

Definition code (c : ascii) : N := N_of_ascii c.

Definition in_range (lo hi : N) (c : ascii) : bool :=
  ((lo <=? code c) && (code c <=? hi))%N.

Definition is_ascii_digit := in_range 48 57.
Definition is_ascii_upper_alpha := in_range 65 90.
Definition is_ascii_lower_alpha := in_range 97 122.
Definition is_ascii_alpha (c : ascii) : bool :=
  is_ascii_upper_alpha c || is_ascii_lower_alpha c.
Definition is_ascii_alphanumeric (c : ascii) : bool :=
  is_ascii_digit c || is_ascii_alpha c.
Definition is_ascii_hex_digit (c : ascii) : bool :=
  is_ascii_digit c || in_range 65 70 c || in_range 97 102 c.
Definition is_c0_control_or_space := in_range 0 32.

Definition is_ascii_tab_or_newline (c : ascii) : bool :=
  match code c with
  | 9 | 10 | 13 => true
  | _ => false
  end%N.

Definition ascii_lowercase (c : ascii) : ascii :=
  if is_ascii_upper_alpha c then ascii_of_N (code c + 32) else c.

Definition is_char (d c : ascii) : bool := Ascii.eqb c d.

Definition one_of (ds : list ascii) (c : ascii) : bool :=
  existsb (fun d => is_char d c) ds.

(** Value of a hexadecimal digit. *)
Definition digit_value (c : ascii) : N :=
  (if is_ascii_digit c then code c - 48
   else if in_range 65 70 c then code c - 55
   else code c - 87)%N.

(** *** List helpers *)

Fixpoint drop_leading (p : ascii -> bool) (l : list ascii) : list ascii :=
  match l with
  | [] => []
  | c :: r => if p c then drop_leading p r else l
  end.

Definition drop_trailing (p : ascii -> bool) (l : list ascii) : list ascii :=
  rev (drop_leading p (rev l)).

(** The longest prefix without a stop character, and what follows. *)
Fixpoint span_until (stop : ascii -> bool) (l : list ascii)
  : list ascii * list ascii :=
  match l with
  | [] => ([], [])
  | c :: r =>
      if stop c then ([], l)
      else let (a, b) := span_until stop r in (c :: a, b)
  end.

(** What follows the last occurrence of [d], if [d] occurs. *)
Fixpoint after_last (d : ascii) (l : list ascii) : option (list ascii) :=
  match l with
  | [] => None
  | c :: r =>
      match after_last d r with
      | Some t => Some t
      | None => if is_char d c then Some r else None
      end
  end.

(** Strictly split on a delimiter: n delimiters give n+1 parts. *)
Fixpoint strictly_split (d : ascii) (l : list ascii) : list (list ascii) :=
  match l with
  | [] => [[]]
  | c :: r =>
      if is_char d c then [] :: strictly_split d r
      else match strictly_split d r with
           | p :: ps => (c :: p) :: ps
           | [] => [[c]]
           end
  end.

Definition is_empty (l : list ascii) : bool :=
  match l with [] => true | _ => false end.

Fixpoint starts_with (p l : list ascii) : bool :=
  match p, l with
  | [], _ => true
  | a :: p', b :: l' => Ascii.eqb a b && starts_with p' l'
  | _ :: _, [] => false
  end.

(** *** Schemes *)

Definition special_schemes : list string :=
  ["ftp"; "file"; "http"; "https"; "ws"; "wss"].

Definition is_special (scheme : list ascii) : bool :=
  existsb (String.eqb (string_of_list_ascii scheme)) special_schemes.

Definition is_scheme_char (c : ascii) : bool :=
  is_ascii_alphanumeric c || one_of ["+"; "-"; "."]%char c.

(** Scheme state: the scheme, lowercased, and what follows its colon.
    Without a base URL, input that leaves the scheme state for the
    no-scheme state is a failure. *)
Fixpoint scheme_state (buffer l : list ascii)
  : option (list ascii * list ascii) :=
  match l with
  | [] => None
  | c :: r =>
      if is_scheme_char c then scheme_state (buffer ++ [ascii_lowercase c]) r
      else if is_char ":" c then Some (buffer, r)
      else None
  end.

Definition scheme_start_state (l : list ascii)
  : option (list ascii * list ascii) :=
  match l with
  | c :: r => if is_ascii_alpha c then scheme_state [ascii_lowercase c] r else None
  | [] => None
  end.

(** *** Hosts *)

Definition forbidden_host_code_point (c : ascii) : bool :=
  match code c with
  | 0 | 9 | 10 | 13 | 32 | 35 | 47 | 58 | 60 | 62 | 63 | 64
  | 91 | 92 | 93 | 94 | 124 => true
  | _ => false
  end%N.

Definition forbidden_domain_code_point (c : ascii) : bool :=
  forbidden_host_code_point c || in_range 0 31 c
  || is_char "%" c || (code c =? 127)%N.

Fixpoint percent_decode (l : list ascii) : list ascii :=
  match l with
  | [] => []
  | c :: r =>
      if is_char "%" c then
        match r with
        | h1 :: h2 :: r' =>
            if is_ascii_hex_digit h1 && is_ascii_hex_digit h2
            then ascii_of_N (16 * digit_value h1 + digit_value h2) :: percent_decode r'
            else c :: percent_decode r
        | _ => c :: percent_decode r
        end
      else c :: percent_decode r
  end.

(** Digits of [input] in radix [R], most significant first. *)
Fixpoint radix_number (R acc : N) (input : list ascii) : option N :=
  match input with
  | [] => Some acc
  | c :: r =>
      if is_ascii_hex_digit c && (digit_value c <? R)%N
      then radix_number R (acc * R + digit_value c)%N r
      else None
  end.

Definition IPv4_number_parser (input : list ascii) : option N :=
  match input with
  | [] => None
  | c0 :: r0 =>
      let '(digits, R) :=
        match r0 with
        | x :: r1 =>
            if is_char "0" c0 && one_of ["x"; "X"]%char x then (r1, 16%N)
            else if is_char "0" c0 then (r0, 8%N)
            else (input, 10%N)
        | [] => (input, 10%N)
        end in
      match digits with
      | [] => Some 0%N
      | _ => radix_number R 0 digits
      end
  end.

Definition last_part (parts : list (list ascii)) : list ascii :=
  List.last parts [].

Definition ends_in_a_number (input : list ascii) : bool :=
  let parts := strictly_split "." input in
  let checked (parts : list (list ascii)) :=
    let l := last_part parts in
    (negb (is_empty l) && forallb is_ascii_digit l)
    || match IPv4_number_parser l with Some _ => true | None => false end in
  if is_empty (last_part parts) then
    if (length parts =? 1)%nat then false else checked (removelast parts)
  else checked parts.

Fixpoint all_numbers (parts : list (list ascii)) : option (list N) :=
  match parts with
  | [] => Some []
  | p :: ps =>
      match IPv4_number_parser p, all_numbers ps with
      | Some n, Some ns => Some (n :: ns)
      | _, _ => None
      end
  end.

Definition IPv4_parser (input : list ascii) : outcome :=
  let parts := strictly_split "." input in
  let parts :=
    if is_empty (last_part parts) && (1 <? length parts)%nat
    then removelast parts else parts in
  if (4 <? length parts)%nat then Failure
  else match all_numbers parts with
       | None => Failure
       | Some numbers =>
           if existsb (fun n => (255 <? n)%N) (removelast numbers) then Failure
           else if (256 ^ (5 - N.of_nat (length numbers)) <=? List.last numbers 0)%N
                then Failure
                else Parsed
       end.

(** The dotted-decimal tail of an IPv6 address: exactly four numbers,
    each at most 255 and written without a leading zero. *)
Definition IPv4_in_IPv6_piece (p : list ascii) : bool :=
  negb (is_empty p) && forallb is_ascii_digit p
  && (match p with
      | c :: _ :: _ => negb (is_char "0" c)
      | _ => true
      end)
  && match radix_number 10 0 p with
     | Some n => (n <=? 255)%N
     | None => false
     end.

Definition IPv4_in_IPv6 (l : list ascii) : bool :=
  let parts := strictly_split "." l in
  (length parts =? 4)%nat && forallb IPv4_in_IPv6_piece parts.

(** At most [n] leading hexadecimal digits: how many, and what follows. *)
Fixpoint hex_piece (n : nat) (l : list ascii) : nat * list ascii :=
  match n, l with
  | S n', c :: r =>
      if is_ascii_hex_digit c
      then let (k, rest) := hex_piece n' r in (S k, rest)
      else (0%nat, l)
  | _, _ => (0%nat, l)
  end.

(** Main loop of the IPv6 parser; the result is the final piece index
    and whether a compression was seen. *)
Fixpoint IPv6_loop (fuel pieceIndex : nat) (compress : bool) (l : list ascii)
  : option (nat * bool) :=
  match fuel with
  | O => None
  | S fuel' =>
      match l with
      | [] => Some (pieceIndex, compress)
      | c :: r =>
          if (pieceIndex =? 8)%nat then None
          else if is_char ":" c then
            if compress then None
            else IPv6_loop fuel' (S pieceIndex) true r
          else
            let (len, rest) := hex_piece 4 l in
            match rest with
            | [] => Some (S pieceIndex, compress)
            | c' :: rest' =>
                if is_char "." c' then
                  if (len =? 0)%nat then None
                  else if (6 <? pieceIndex)%nat then None
                  else if IPv4_in_IPv6 l then Some (pieceIndex + 2, compress)%nat
                  else None
                else if is_char ":" c' then
                  match rest' with
                  | [] => None
                  | _ => IPv6_loop fuel' (S pieceIndex) compress rest'
                  end
                else None
            end
      end
  end.

Definition IPv6_parser (input : list ascii) : outcome :=
  let start :=
    match input with
    | c :: r =>
        if is_char ":" c then
          match r with
          | c' :: r' => if is_char ":" c' then Some (1%nat, true, r') else None
          | [] => None
          end
        else Some (0%nat, false, input)
    | [] => Some (0%nat, false, input)
    end in
  match start with
  | None => Failure
  | Some (pieceIndex, compress, l) =>
      match IPv6_loop (S (length l)) pieceIndex compress l with
      | None => Failure
      | Some (pieceIndex', compress') =>
          if compress' || (pieceIndex' =? 8)%nat then Parsed else Failure
      end
  end.

(** The part of domain-to-ASCII that needs no IDNA tables: an ASCII
    domain without an xn-- label is lowercased. *)
Definition domain_to_ASCII (domain : list ascii) : option (list ascii) :=
  let lowered := map ascii_lowercase domain in
  if forallb (in_range 0 127) domain
     && negb (existsb (starts_with (list_ascii_of_string "xn--"))
                      (strictly_split "." lowered))
  then Some lowered else None.

Definition host_parser (input : list ascii) (isOpaque : bool) : outcome :=
  if starts_with ["["%char] input then
    match rev input with
    | c :: inner_rev =>
        if is_char "]" c then IPv6_parser (rev (removelast inner_rev))
        else Failure
    | [] => Failure
    end
  else if isOpaque then
    if existsb forbidden_host_code_point input then Failure else Parsed
  else if existsb (is_char "160") input then Failure
  else if negb (forallb (in_range 0 127) input) then Unmodelled
  else
    match domain_to_ASCII (percent_decode input) with
    | None => Unmodelled
    | Some asciiDomain =>
        if is_empty asciiDomain then Failure
        else if existsb forbidden_domain_code_point asciiDomain then Failure
        else if ends_in_a_number asciiDomain then IPv4_parser asciiDomain
        else Parsed
    end.

(** *** Authority, host and port states *)

(** Host state: the host buffer up to the first colon outside square
    brackets, and what follows that colon. *)
Fixpoint host_state (insideBrackets : bool) (buffer l : list ascii)
  : list ascii * option (list ascii) :=
  match l with
  | [] => (buffer, None)
  | c :: r =>
      if is_char ":" c && negb insideBrackets then (buffer, Some r)
      else
        let insideBrackets' :=
          if is_char "[" c then true
          else if is_char "]" c then false
          else insideBrackets in
        host_state insideBrackets' (buffer ++ [c]) r
  end.

(** Port state, on what lies between the colon and the end of the
    authority. *)
Definition port_state (buffer : list ascii) : outcome :=
  if forallb is_ascii_digit buffer then
    match radix_number 10 0 buffer with
    | Some port => if (65535 <? port)%N then Failure else Parsed
    | None => Failure
    end
  else Failure.

Definition and_then (o : outcome) (k : outcome) : outcome :=
  match o with
  | Parsed => k
  | _ => o
  end.

(** Authority state followed by the host and port states.  [l] starts
    at the authority; the path, query and fragment states that follow
    never fail. *)
Definition authority_state (special : bool) (l : list ascii) : outcome :=
  let stop c :=
    one_of ["/"; "?"; "#"]%char c || (special && is_char "\" c) in
  let authority := fst (span_until stop l) in
  let hostport := after_last "@" authority in
  match hostport with
  | Some [] => Failure
  | _ =>
      let hostport := default authority hostport in
      match host_state false [] hostport with
      | (buffer, Some port) =>
          if is_empty buffer then Failure
          else and_then (host_parser buffer (negb special)) (port_state port)
      | (buffer, None) =>
          if special && is_empty buffer then Failure
          else host_parser buffer (negb special)
      end
  end.

Definition is_slash (c : ascii) : bool := one_of ["/"; "\"]%char c.

Definition is_windows_drive_letter (l : list ascii) : bool :=
  match l with
  | [a; b] => is_ascii_alpha a && one_of [":"; "|"]%char b
  | _ => false
  end.

(** File state, file slash state and file host state, without a base. *)
Definition file_state (l : list ascii) : outcome :=
  match l with
  | c1 :: c2 :: r =>
      if is_slash c1 && is_slash c2 then
        let buffer := fst (span_until (one_of ["/"; "\"; "?"; "#"]%char) r) in
        if is_windows_drive_letter buffer then Parsed
        else if is_empty buffer then Parsed
        else host_parser buffer false
      else Parsed
  | _ => Parsed
  end.

(** The parser first removes leading and trailing C0 controls and
    spaces, then every tab and newline. *)
Definition preprocess (input : list ascii) : list ascii :=
  List.filter (fun c => negb (is_ascii_tab_or_newline c))
    (drop_trailing is_c0_control_or_space
       (drop_leading is_c0_control_or_space input)).

(** The basic URL parser, without base URL and without state override. *)
Definition basic_URL_parser (input : list ascii) : outcome :=
  match scheme_start_state (preprocess input) with
  | None => Failure
  | Some (scheme, rest) =>
      if String.eqb (string_of_list_ascii scheme) "file" then file_state rest
      else if is_special scheme then
        (* special authority slashes, special authority ignore slashes *)
        authority_state true (drop_leading is_slash rest)
      else
        match rest with
        | c1 :: r1 =>
            if is_char "/" c1 then
              (* path or authority state *)
              match r1 with
              | c2 :: r2 =>
                  if is_char "/" c2 then authority_state false r2 else Parsed
              | [] => Parsed
              end
            else Parsed (* opaque path state *)
        | [] => Parsed
        end
  end.

Definition parse (s : string) : outcome :=
  basic_URL_parser (list_ascii_of_string s).

(** Whether the parser finds a scheme at the start of [s]. *)
Definition has_scheme (s : string) : bool :=
  match scheme_start_state (preprocess (list_ascii_of_string s)) with
  | Some _ => true
  | None => false
  end.

(** [new URL(s)] returns (true) or throws a TypeError (false), as far as
    the parser decides; on an input outside the modelled fragment the
    answer given here is [false], which need not be the platform's. *)
Definition constructs (s : string) : bool :=
  match parse s with
  | Parsed => true
  | _ => false
  end.

End URL.

(** ** The scan result model

    Modelled from the spec: the declarations of [@/types] ([Severity],
    [AccessibilityIssue], [ComplianceBadge], [ScanResult]) are not part of
    the sources at hand; the records below follow section 3 of the
    specification and the fields the components read.  An array held by
    an object is a reference into the store. *)

Definition ref := positive.

Inductive Severity := critical | moderate | minor.

Module Issue.
Record t := mk {
  id : string;
  severity : Severity;
  wcagRule : string;
  wcagLevel : string;
  title : string;
  explanation : string;
  affectedGroups : list string;
  suggestedFix : string;
  codeSnippet : string
}.
End Issue.

Module Badge.
Record t := mk {
  id : string;
  label : string;
  status : string
}.
End Badge.

Module ScanResult.
Record t := mk {
  url : string;
  scanDate : string;
  score : Z;
  category : string;
  issues : ref;
  complianceBadges : list Badge.t
}.
End ScanResult.

(** The arrays of issues, by reference. *)
Abbreviation store := (gmap ref (list Issue.t)).

(** ** [Array.prototype.sort]

    The method sorts the array in place and returns the same array.  The
    order is the one given by [comparefn]; since ECMAScript 2019 the sort
    is stable.  Which algorithm runs is up to the engine: the insertion
    sort below stands for all of them, and [ranked_unique] shows that for
    the comparator of this page the result does not depend on that
    choice. *)

Module Array.
Section Sort.
Context {A : Type} (comparefn : A -> A -> Z).

(** [x] goes in front of the first element it does not have to follow. *)
Fixpoint insert (x : A) (l : list A) : list A :=
  match l with
  | [] => [x]
  | y :: l' => if (comparefn x y <=? 0)%Z then x :: l else y :: insert x l'
  end.

Fixpoint sort (l : list A) : list A :=
  match l with
  | [] => []
  | x :: l' => insert x (sort l')
  end.
End Sort.
End Array.

(** ** The component *)

(** The state of [ScannerPage]: the four [useState] cells, the store of
    arrays, and two pieces of bookkeeping for the asynchronous handler:
    [suspended] holds, oldest first, the [url] captured by each
    [handleScan] call that waits at its [await]; [calls] records the
    arguments [generateMockResult] was called with, oldest first. *)
Record State := mkState {
  url : string;
  isScanning : bool;
  error : option string;
  result : option ScanResult.t;
  heap : store;
  suspended : list string;
  calls : list string
}.

Definition setUrl (v : string) (st : State) : State :=
  mkState v (isScanning st) (error st) (result st) (heap st) (suspended st) (calls st).

Definition setIsScanning (v : bool) (st : State) : State :=
  mkState (url st) v (error st) (result st) (heap st) (suspended st) (calls st).

Definition setError (v : option string) (st : State) : State :=
  mkState (url st) (isScanning st) v (result st) (heap st) (suspended st) (calls st).

Definition setResult (v : option ScanResult.t) (st : State) : State :=
  mkState (url st) (isScanning st) (error st) v (heap st) (suspended st) (calls st).

Definition setHeap (v : store) (st : State) : State :=
  mkState (url st) (isScanning st) (error st) (result st) v (suspended st) (calls st).

(** [await new Promise(resolve => setTimeout(resolve, 2500))]: the rest
    of the call, with its [url], waits for the timer. *)
Definition await_timer (captured : string) (st : State) : State :=
  mkState (url st) (isScanning st) (error st) (result st) (heap st)
          (suspended st ++ [captured]) (calls st).

Definition resume_oldest (st : State) : State :=
  mkState (url st) (isScanning st) (error st) (result st) (heap st)
          (tail (suspended st)) (calls st).

Definition record_call (arg : string) (st : State) : State :=
  mkState (url st) (isScanning st) (error st) (result st) (heap st)
          (suspended st) (calls st ++ [arg]).

Definition initial (h : store) : State :=
  mkState EmptyString false None None h [] [].

Definition validation_message : string := "Please enter a valid website URL.".

(** [severityOrder] of the comparator, lines 90-91. *)
Definition severityOrder (s : Severity) : Z :=
  match s with
  | critical => 0
  | moderate => 1
  | minor => 2
  end.

Definition compareSeverity (a b : Issue.t) : Z :=
  severityOrder (Issue.severity a) - severityOrder (Issue.severity b).

(** The user interface events the page reacts to, the timer of a waiting
    [handleScan], and a render of the component. *)
Inductive Event :=
| Change (value : string)
| Click
| KeyDown (key : string)
| Timeout
| Render.

Section Controller.

(** [new URL(s)] returns ([true]) or throws ([false]). *)
Variable newURL : string -> bool.

(** [generateMockResult] of [@/data/mockScanResults], which is not part
    of the sources at hand: it returns a result, possibly allocating or
    changing arrays, or throws ([None]). *)
Variable generateMockResult : string -> store -> option (ScanResult.t * store).

(** Lines 44-53. *)
Definition validateUrl (input : string) : bool :=
  if negb (JS.truthy (JS.trim input)) then false
  else
    let urlToTest := if JS.startsWith input "http" then input else JS.https input in
    if newURL urlToTest then true else false.

(** Line 68. *)
Definition formattedUrl (url : string) : string :=
  if JS.startsWith url "http" then url else JS.https url.

(** Lines 55-66: [handleScan] up to its [await]. *)
Definition handleScan (st : State) : State :=
  let st1 := setError None st in
  if negb (validateUrl (url st)) then setError (Some validation_message) st1
  else await_timer (url st) (setIsScanning true st1).

(** Lines 68-72: [handleScan] after its [await], with the [url] of its
    closure.  When [generateMockResult] throws, the promise of the
    handler rejects and the two setters are not reached. *)
Definition handleScan_resumed (captured : string) (st : State) : State :=
  let st1 := record_call (formattedUrl captured) st in
  match generateMockResult (formattedUrl captured) (heap st1) with
  | None => st1
  | Some (scanResult, h) => setIsScanning false (setResult (Some scanResult) (setHeap h st1))
  end.

(** Lines 75-79. *)
Definition handleKeyDown (key : string) (st : State) : State :=
  if String.eqb key "Enter" && negb (isScanning st) then handleScan st else st.

(** Lines 88-92: [result?.issues.sort(...)], evaluated at every render.
    The array is sorted where it is; the value is the array itself. *)
Definition sortedIssues (st : State) : option ref * State :=
  match result st with
  | None => (None, st)
  | Some r =>
      let a := ScanResult.issues r in
      match heap st !! a with
      | Some elements =>
          (Some a, setHeap (<[a := Array.sort compareSeverity elements]> (heap st)) st)
      | None => (Some a, st)
      end
  end.

(** What the issues grid shows: the elements of [sortedIssues], read
    after the sort (lines 211 and 314-318). *)
Definition issues_grid (st : State) : option (list Issue.t) :=
  let (sorted, st') := sortedIssues st in
  match result st, isScanning st, sorted with
  | Some _, false, Some a => heap st' !! a
  | _, _, _ => None
  end.

(** One event.  The input and the button carry [disabled={isScanning}]
    (lines 157 and 183): while a scan runs the input takes no edits and
    the button no clicks.  [handleKeyDown] has its own guard.  A timer
    wakes the oldest waiting [handleScan].  A change event carries the
    value of the input element; any string is admitted here, the values
    a [type="url"] input hands over among them. *)
Definition step (st : State) (e : Event) : State :=
  match e with
  | Change value => if isScanning st then st else setUrl value st
  | Click => if isScanning st then st else handleScan st
  | KeyDown key => handleKeyDown key st
  | Timeout =>
      match suspended st with
      | [] => st
      | captured :: _ => handleScan_resumed captured (resume_oldest st)
      end
  | Render => snd (sortedIssues st)
  end.

Definition run (st : State) (events : list Event) : State :=
  fold_left step events st.

(** The states the page can be in. *)
Inductive reachable : State -> Prop :=
| reachable_initial h : reachable (initial h)
| reachable_step st e : reachable st -> reachable (step st e).

End Controller.

Arguments reachable_initial {_ _} _.
Arguments reachable_step {_ _} _ _ _.

(** The ranking of section 4.3: the order [sortedIssues] puts an array
    of issues in. *)
Definition rank (issues : list Issue.t) : list Issue.t :=
  Array.sort compareSeverity issues.

Definition has_severity (s : Severity) (i : Issue.t) : bool :=
  (severityOrder (Issue.severity i) =? severityOrder s)%Z.

Definition severity_le (a b : Issue.t) : Prop :=
  (severityOrder (Issue.severity a) <= severityOrder (Issue.severity b))%Z.

Definition with_severity (s : Severity) (i : Issue.t) : Issue.t :=
  Issue.mk (Issue.id i) s (Issue.wcagRule i) (Issue.wcagLevel i) (Issue.title i)
           (Issue.explanation i) (Issue.affectedGroups i) (Issue.suggestedFix i)
           (Issue.codeSnippet i).

(** The events a user can cause. *)
Definition user_event (e : Event) : Prop :=
  match e with
  | Change _ | Click | KeyDown _ => True
  | Timeout | Render => False
  end.

(** ** A sample collaborator

    A stand-in for the mock generator, used to run the page on concrete
    inputs: every call allocates a fresh array with one minor, one
    critical and one moderate issue, in that order. *)

Definition sample_issue (id : string) (s : Severity) : Issue.t :=
  Issue.mk id s "1.1.1" "A" "Images lack text alternatives"
           EmptyString [] EmptyString EmptyString.

Definition sample_issues : list Issue.t :=
  [sample_issue "issue-1" minor; sample_issue "issue-2" critical;
   sample_issue "issue-3" moderate].

Definition sample_scan (u : string) (h : store) : option (ScanResult.t * store) :=
  let a := fresh (dom h) in
  Some (ScanResult.mk u "2024-01-01T00:00:00.000Z" 72 "fair" a [],
        <[a := sample_issues]> h).

(** A collaborator that fails on every call. *)
Definition failing_scan (u : string) (h : store) : option (ScanResult.t * store) :=
  None.

(** ** The input element

    The input is [type="url"] (line 151).  The value its change event
    carries has gone through the value sanitization algorithm of the HTML
    standard for that type: newlines are stripped, then leading and
    trailing ASCII whitespace.  Attributes such as [aria-controls] hold a
    list of ids separated by ASCII whitespace. *)

Module HTML.

(** TAB, LF, FF, CR and SPACE. *)
Definition is_ascii_whitespace (c : ascii) : bool :=
  match N_of_ascii c with
  | 9 | 10 | 12 | 13 | 32 => true
  | _ => false
  end%N.

Definition is_newline (c : ascii) : bool :=
  match N_of_ascii c with
  | 10 | 13 => true
  | _ => false
  end%N.

Definition sanitize_url (value : string) : string :=
  string_of_list_ascii
    (URL.drop_trailing is_ascii_whitespace
       (URL.drop_leading is_ascii_whitespace
          (List.filter (fun c => negb (is_newline c)) (list_ascii_of_string value)))).

(** Split on ASCII whitespace; [token] is the token being read. *)
Fixpoint split_on_whitespace (token l : list ascii) : list (list ascii) :=
  match l with
  | [] => if URL.is_empty token then [] else [token]
  | c :: r =>
      if is_ascii_whitespace c then
        if URL.is_empty token then split_on_whitespace [] r
        else token :: split_on_whitespace [] r
      else split_on_whitespace (token ++ [c]) r
  end.

(** The ids an id reference list names. *)
Definition tokens (value : string) : list string :=
  map string_of_list_ascii (split_on_whitespace [] (list_ascii_of_string value)).

End HTML.

(** ** What the page shows

    The parts of the JSX that depend on the state: which regions are
    rendered, the attributes that tie the input to the alert, the issue
    summary, and the element ids and the references to them. *)

(** ToBoolean of [error], a string or null (lines 158, 159 and 165). *)
Definition error_truthy (st : State) : bool :=
  match error st with
  | Some message => JS.truthy message
  | None => false
  end.

(** Line 165: the alert is rendered. *)
Definition shows_error (st : State) : bool := error_truthy st.

(** Line 158. *)
Definition aria_describedby (st : State) : option string :=
  if error_truthy st then Some "url-error" else None.

(** Line 159. *)
Definition aria_invalid (st : State) : string :=
  if error_truthy st then "true" else "false".

(** Line 201: the loading region is rendered. *)
Definition shows_loading (st : State) : bool := isScanning st.

(** Line 212: the results are rendered. *)
Definition shows_results (st : State) : bool :=
  match result st with
  | Some _ => negb (isScanning st)
  | None => false
  end.

(** [a.severity === s] *)
Definition severity_eqb (a b : Severity) : bool :=
  match a, b with
  | critical, critical | moderate, moderate | minor, minor => true
  | _, _ => false
  end.

(** [issues.filter(i => i.severity === s).length], lines 291, 301 and 311. *)
Definition count_severity (s : Severity) (issues : list Issue.t) : nat :=
  length (List.filter (fun i => severity_eqb (Issue.severity i) s) issues).

(** The figures of the issue list's header: lines 278 and 291-311. *)
Record Summary := mkSummary {
  found : nat;
  criticalCount : nat;
  moderateCount : nat;
  minorCount : nat
}.

Definition summarize (issues : list Issue.t) : Summary :=
  mkSummary (length issues) (count_severity critical issues)
            (count_severity moderate issues) (count_severity minor issues).

(** The header as rendered: the array is read after the sort of line 89. *)
Definition issue_summary (st : State) : option Summary :=
  let (_, st') := sortedIssues st in
  match result st, isScanning st with
  | Some r, false => summarize <$> heap st' !! ScanResult.issues r
  | _, _ => None
  end.

(** Lines 38-42: the effect with dependency [error].  After a commit it
    runs when [error] is not the value of the commit before; it focuses
    the alert when [error] is truthy, which is when the alert is
    rendered. *)
Definition error_focused (before after : State) : bool :=
  negb (bool_decide (error before = error after)) && error_truthy after.

(** ** The issue card ([IssueCard.tsx]) *)

Module IssueCard.

(** Line 29: the card starts collapsed. *)
Definition initial : bool := false.

(** Line 50: the header button. *)
Definition onClick (isExpanded : bool) : bool := negb isExpanded.

(** Lines 54 and 87. *)
Definition header_id (issue : Issue.t) : string :=
  "issue-header-" +:+ Issue.id issue.

Definition content_id (issue : Issue.t) : string :=
  "issue-content-" +:+ Issue.id issue.

(** Lines 53 and 89. *)
Definition aria_controls (issue : Issue.t) : string :=
  "issue-content-" +:+ Issue.id issue.

Definition aria_labelledby (issue : Issue.t) : string :=
  "issue-header-" +:+ Issue.id issue.

(** Lines 90-92. *)
Definition content_class (isExpanded : bool) : string :=
  "overflow-hidden transition-all duration-300 "
  +:+ (if isExpanded then "max-h-[2000px] opacity-100" else "max-h-0 opacity-0").

Definition ids (issue : Issue.t) : list string :=
  [header_id issue; content_id issue].

Definition references (issue : Issue.t) : list string :=
  HTML.tokens (aria_controls issue) ++ HTML.tokens (aria_labelledby issue).

End IssueCard.

(** The [id] attributes of the rendered page, in document order: lines
    122, 127, 150, 174, 216, 272 and the cards of lines 318-320. *)
Definition page_ids (st : State) : list string :=
  ["scanner-main"; "scanner-heading"; "url-input"]
  ++ (if error_truthy st then ["url-error"] else [])
  ++ match result st, isScanning st with
     | Some _, false =>
         ["results-heading"; "issues-heading"]
         ++ flat_map IssueCard.ids (default [] (issues_grid st))
     | _, _ => []
     end.

(** The references to ids: the skip link (line 97), [aria-labelledby]
    (lines 124, 215, 268), [htmlFor] (line 137), [aria-describedby]
    (line 158) and the cards' [aria-controls] and [aria-labelledby].  The
    [aria-] attributes are id reference lists, read token by token. *)
Definition page_references (st : State) : list string :=
  ["scanner-main"] ++ HTML.tokens "scanner-heading" ++ ["url-input"]
  ++ from_option HTML.tokens [] (aria_describedby st)
  ++ match result st, isScanning st with
     | Some _, false =>
         HTML.tokens "results-heading" ++ HTML.tokens "issues-heading"
         ++ flat_map IssueCard.references (default [] (issues_grid st))
     | _, _ => []
     end.

(** ** Auxiliary notions *)

(** A character that [trim] removes. *)
Definition blank_char (c : ascii) : Prop := JS.isWhiteSpace c = true.

(** No call waits unless a scan is shown as running, at most one call
    waits, and an error is shown only while no scan runs and is the
    validation message. *)
Record page_invariant (st : State) : Prop := {
  waiting_scans : isScanning st = false -> suspended st = [];
  single_flight : length (suspended st) <= 1;
  scanning_no_error : isScanning st = true -> error st = None;
  only_validation_error : error st = None \/ error st = Some validation_message
}.

(** Every waiting call was accepted and still has the input's text as
    its target; every collaborator call so far got a string that starts
    with http and that the URL constructor accepts. *)
Record target_invariant (newURL : string -> bool) (st : State) : Prop := {
  waiting_accepted :
    Forall (fun u => validateUrl newURL u = true /\ u = url st) (suspended st);
  calls_accepted :
    Forall (fun f => JS.startsWith f "http" = true /\ newURL f = true) (calls st)
}.

(** A URL constructor: a function that agrees with the parser wherever
    the parser decides.  What it answers on hosts outside the modelled
    fragment is left open. *)
Definition implements_URL (newURL : string -> bool) : Prop :=
  forall s,
    (URL.parse s = URL.Parsed -> newURL s = true)
    /\ (URL.parse s = URL.Failure -> newURL s = false).

(** What one call of the collaborator does to the page (lines 69-72):
    with [answer] what the call returned, the result and the store are
    the call's and the scan is over; when the call threw, the setters
    were not reached. *)
Definition scan_outcome (answer : option (ScanResult.t * store))
    (before after : State) : Prop :=
  match answer with
  | Some (scanResult, h) =>
      result after = Some scanResult /\ heap after = h /\ isScanning after = false
  | None =>
      result after = result before /\ heap after = heap before
      /\ isScanning after = isScanning before
  end.

(** An id without ASCII whitespace in it. *)
Definition plain_id (id : string) : Prop :=
  Forall (fun c => HTML.is_ascii_whitespace c = false) (list_ascii_of_string id).

(** * Properties *)

(** ** Strings *)

Lemma prefix_spec (p s : string) :
  String.prefix p s = true <-> exists rest, s = p +:+ rest.
Proof.
  revert s. induction p as [|a p IH]; intros s.
  - split; [intros _; now exists s | intros _; now destruct s].
  - destruct s as [|b s]; cbn [String.prefix String.append].
    + split; [discriminate | intros [r Hr]; discriminate].
    + destruct (ascii_dec a b) as [->|Hab].
      * rewrite IH. split; intros [r Hr]; exists r.
        -- now rewrite Hr.
        -- simpl in Hr. now injection Hr.
      * split; [discriminate | intros [r Hr]; simpl in Hr].
        injection Hr as Hb _. now destruct Hab.
Qed.

Lemma startsWith_http_spec (s : string) :
  JS.startsWith s "http" = true <-> exists rest, s = "http" +:+ rest.
Proof. apply prefix_spec. Qed.

Lemma trim_cons_truthy (c : ascii) (r : string) :
  JS.isWhiteSpace c = false -> JS.truthy (JS.trim (String c r)) = true.
Proof.
  intros Hc. unfold JS.trim. simpl. rewrite Hc. simpl.
  destruct (JS.trimEnd r); [rewrite Hc|]; reflexivity.
Qed.

Lemma trim_http_truthy (s : string) :
  JS.startsWith s "http" = true -> JS.truthy (JS.trim s) = true.
Proof.
  intros H. apply startsWith_http_spec in H as [r ->].
  now apply trim_cons_truthy.
Qed.

Lemma trim_https_truthy (s : string) : JS.truthy (JS.trim (JS.https s)) = true.
Proof. now apply trim_cons_truthy. Qed.

Lemma startsWith_https (s : string) : JS.startsWith (JS.https s) "http" = true.
Proof. reflexivity. Qed.

(** ** The URL parser on blank input

    A blank input with https:// in front never parses: once the parser
    has removed trailing spaces and control characters, the host is
    empty or holds a no-break space. *)

Lemma isWhiteSpace_cases (c : ascii) :
  JS.isWhiteSpace c = true ->
  In c ["009"; "010"; "011"; "012"; "013"; "032"; "160"]%char.
Proof.
  destruct c as [[] [] [] [] [] [] [] []]; intros H; try discriminate H;
    simpl; auto 10.
Qed.

Lemma trimStart_cases (s : string) :
  (JS.trimStart s = EmptyString /\ Forall blank_char (list_ascii_of_string s))
  \/ exists c r, JS.trimStart s = String c r /\ JS.isWhiteSpace c = false.
Proof.
  induction s as [|c s IH]; simpl.
  - left. split; [reflexivity | constructor].
  - destruct (JS.isWhiteSpace c) eqn:E.
    + destruct IH as [[H1 H2]|H]; [left | right; exact H].
      split; [exact H1 | now constructor].
    + right. now exists c, s.
Qed.

Lemma trimEnd_nonblank (c : ascii) (r : string) :
  JS.isWhiteSpace c = false -> JS.trimEnd (String c r) <> EmptyString.
Proof. intros H. simpl. destruct (JS.trimEnd r); [rewrite H|]; discriminate. Qed.

Lemma trim_blank (s : string) :
  JS.trim s = EmptyString -> Forall blank_char (list_ascii_of_string s).
Proof.
  unfold JS.trim. intros H.
  destruct (trimStart_cases s) as [[_ Hb]|(c & r & E & Hc)]; [exact Hb|].
  rewrite E in H. now apply trimEnd_nonblank in H.
Qed.

Lemma drop_leading_app_stop (p : ascii -> bool) (a b : list ascii) :
  URL.drop_leading p b = b ->
  URL.drop_leading p (a ++ b) = URL.drop_leading p a ++ b.
Proof.
  intros Hb. induction a as [|x a IH]; simpl; [exact Hb|].
  now destruct (p x).
Qed.

Lemma drop_leading_cases (p : ascii -> bool) (l : list ascii) :
  URL.drop_leading p l = []
  \/ exists c r, URL.drop_leading p l = c :: r /\ p c = false.
Proof.
  induction l as [|x l IH]; simpl; [now left|].
  destruct (p x) eqn:E; [exact IH|]. right. now exists x, l.
Qed.

Lemma drop_leading_Forall (Q : ascii -> Prop) (p : ascii -> bool) (l : list ascii) :
  Forall Q l -> Forall Q (URL.drop_leading p l).
Proof.
  induction 1 as [|x l Hx Hl IH]; simpl; [constructor|].
  destruct (p x); [exact IH | now constructor].
Qed.

Lemma drop_trailing_after_https (l : list ascii) :
  URL.drop_trailing URL.is_c0_control_or_space (list_ascii_of_string "https://" ++ l)
  = list_ascii_of_string "https://" ++ URL.drop_trailing URL.is_c0_control_or_space l.
Proof.
  unfold URL.drop_trailing. rewrite rev_app_distr.
  rewrite drop_leading_app_stop by reflexivity.
  now rewrite rev_app_distr.
Qed.

Lemma preprocess_after_https (l : list ascii) :
  URL.preprocess (list_ascii_of_string "https://" ++ l)
  = list_ascii_of_string "https://"
    ++ List.filter (fun c => negb (URL.is_ascii_tab_or_newline c))
         (URL.drop_trailing URL.is_c0_control_or_space l).
Proof.
  unfold URL.preprocess.
  change (URL.drop_leading URL.is_c0_control_or_space
            (list_ascii_of_string "https://" ++ l))
    with (list_ascii_of_string "https://" ++ l).
  now rewrite drop_trailing_after_https, List.filter_app.
Qed.

(** What is left of a blank input after preprocessing is empty or holds
    a no-break space. *)
Lemma preprocess_blank (l : list ascii) :
  Forall blank_char l ->
  let m := List.filter (fun c => negb (URL.is_ascii_tab_or_newline c))
             (URL.drop_trailing URL.is_c0_control_or_space l) in
  Forall blank_char m /\ (m = [] \/ In "160"%char m).
Proof.
  intros Hl m. subst m. unfold URL.drop_trailing.
  assert (Hr : Forall blank_char (rev l)) by now apply Forall_rev.
  pose proof (drop_leading_Forall _ URL.is_c0_control_or_space _ Hr) as Hd.
  split.
  - apply List.Forall_forall. intros c Hc. apply List.filter_In in Hc as [Hc _].
    apply List.in_rev in Hc. revert c Hc. now apply List.Forall_forall.
  - destruct (drop_leading_cases URL.is_c0_control_or_space (rev l))
      as [->|(c & r & E & Hc)]; [now left|].
    right. rewrite E in *. inversion Hd as [|? ? Hb _]; subst.
    apply isWhiteSpace_cases in Hb. simpl in Hb.
    destruct Hb as [<-|[<-|[<-|[<-|[<-|[<-|[<-|[]]]]]]]]; try discriminate Hc.
    apply List.filter_In. split; [|reflexivity].
    simpl. apply List.in_or_app. right. now left.
Qed.

Lemma span_until_none (stop : ascii -> bool) (l : list ascii) :
  Forall (fun c => stop c = false) l -> URL.span_until stop l = (l, []).
Proof.
  induction 1 as [|x l Hx _ IH]; simpl; [reflexivity|]. now rewrite Hx, IH.
Qed.

Lemma after_last_none (d : ascii) (l : list ascii) :
  Forall (fun c => URL.is_char d c = false) l -> URL.after_last d l = None.
Proof.
  induction 1 as [|x l Hx _ IH]; simpl; [reflexivity|]. now rewrite IH, Hx.
Qed.

Lemma host_state_no_colon (b : bool) (buffer l : list ascii) :
  Forall (fun c => URL.is_char ":" c = false) l ->
  URL.host_state b buffer l = (buffer ++ l, None).
Proof.
  intros H. revert b buffer.
  induction H as [|x l Hx _ IH]; intros b buffer; simpl.
  - now rewrite app_nil_r.
  - rewrite Hx. simpl. rewrite IH. now rewrite <- app_assoc.
Qed.

Lemma blank_char_plain (special : bool) (c : ascii) :
  blank_char c ->
  (URL.one_of ["/"; "?"; "#"]%char c || (special && URL.is_char "\" c) = false)
  /\ URL.is_char "@" c = false
  /\ URL.is_char ":" c = false
  /\ URL.is_char "[" c = false
  /\ URL.is_slash c = false.
Proof.
  intros H. apply isWhiteSpace_cases in H. simpl in H.
  destruct H as [<-|[<-|[<-|[<-|[<-|[<-|[<-|[]]]]]]]];
    destruct special; repeat split; reflexivity.
Qed.

Lemma authority_state_blank (m : list ascii) :
  Forall blank_char m -> (m = [] \/ In "160"%char m) ->
  URL.authority_state true m = URL.Failure.
Proof.
  intros Hm Hc. unfold URL.authority_state.
  rewrite span_until_none
    by (eapply List.Forall_impl; [|exact Hm]; intros c Hb; apply (blank_char_plain true c Hb)).
  simpl fst.
  rewrite after_last_none
    by (eapply List.Forall_impl; [|exact Hm]; intros c Hb; apply (blank_char_plain true c Hb)).
  simpl default.
  rewrite host_state_no_colon
    by (eapply List.Forall_impl; [|exact Hm]; intros c Hb; apply (blank_char_plain true c Hb)).
  simpl app.
  destruct Hc as [->|Hin]; [reflexivity|].
  destruct m as [|c m']; [destruct Hin|].
  cbn [URL.is_empty andb negb]. unfold URL.host_parser.
  inversion Hm as [|? ? Hc _]; subst.
  cbn [URL.starts_with].
  replace (Ascii.eqb "[" c) with false
    by (symmetry; rewrite Ascii.eqb_sym; apply (blank_char_plain true c Hc)).
  cbn [andb negb].
  replace (existsb (URL.is_char "160") (c :: m')) with true; [reflexivity|].
  symmetry. apply existsb_exists. exists "160"%char. split; [exact Hin|reflexivity].
Qed.

(** With https:// in front, a blank input is a failure of the parser. *)
Lemma blank_prefixed_rejected (input : string) :
  JS.trim input = EmptyString -> URL.parse (JS.https input) = URL.Failure.
Proof.
  intros Ht. apply trim_blank in Ht.
  destruct (preprocess_blank _ Ht) as [Hm Hc].
  set (m := List.filter _ _) in *.
  assert (E : URL.parse (JS.https input) = URL.authority_state true m).
  { unfold URL.parse, URL.basic_URL_parser.
    change (list_ascii_of_string (JS.https input))
      with (list_ascii_of_string "https://" ++ list_ascii_of_string input).
    rewrite preprocess_after_https. fold m.
    change (URL.scheme_start_state (list_ascii_of_string "https://" ++ m))
      with (Some (list_ascii_of_string "https", "/" :: "/" :: m)%char).
    cbv iota beta.
    change (String.eqb (string_of_list_ascii (list_ascii_of_string "https")) "file")
      with false.
    change (URL.is_special (list_ascii_of_string "https")) with true.
    cbv iota. f_equal.
    change (URL.drop_leading URL.is_slash ("/" :: "/" :: m)%char)
      with (URL.drop_leading URL.is_slash m).
    destruct m as [|c m']; [reflexivity|]. simpl.
    inversion Hm as [|? ? Hb _]; subst.
    now rewrite (proj2 (proj2 (proj2 (proj2 (blank_char_plain true c Hb))))). }
  rewrite E. now apply authority_state_blank.
Qed.

Lemma constructs_implements_URL : implements_URL URL.constructs.
Proof.
  intros s. unfold URL.constructs. split; intros ->; reflexivity.
Qed.

(** ** The validator *)

Section Validator.

Variable newURL : string -> bool.

Lemma validateUrl_unfold (input : string) :
  validateUrl newURL input =
  JS.truthy (JS.trim input)
  && newURL (if JS.startsWith input "http" then input else JS.https input).
Proof.
  unfold validateUrl. destruct (JS.truthy (JS.trim input)); simpl; [|reflexivity].
  now destruct (newURL _).
Qed.

Lemma validateUrl_http (input : string) :
  JS.startsWith input "http" = true -> validateUrl newURL input = newURL input.
Proof.
  intros H. rewrite validateUrl_unfold, H, (trim_http_truthy _ H). reflexivity.
Qed.

Lemma validateUrl_https (input : string) :
  validateUrl newURL (JS.https input) = newURL (JS.https input).
Proof. apply validateUrl_http, startsWith_https. Qed.

Lemma validateUrl_blank (input : string) :
  JS.trim input = EmptyString -> validateUrl newURL input = false.
Proof. intros H. rewrite validateUrl_unfold, H. reflexivity. Qed.

End Validator.

(** ** Invariants of the page *)

Section Invariants.

Variable newURL : string -> bool.
Variable generateMockResult : string -> store -> option (ScanResult.t * store).

Local Abbreviation step := (step newURL generateMockResult).
Local Abbreviation run := (run newURL generateMockResult).
Local Abbreviation reachable := (reachable newURL generateMockResult).

Lemma page_invariant_initial (h : store) : page_invariant (initial h).
Proof. split; simpl; auto. Qed.

Lemma page_invariant_handleScan (st : State) :
  isScanning st = false -> page_invariant st -> page_invariant (handleScan newURL st).
Proof.
  intros Hs [Hw Hl He Hv]. unfold handleScan.
  destruct (validateUrl newURL (url st)); simpl.
  - split; simpl; rewrite ?(Hw Hs); simpl; auto; discriminate.
  - split; simpl; auto. congruence.
Qed.

Lemma page_invariant_step (st : State) (e : Event) :
  page_invariant st -> page_invariant (step st e).
Proof.
  intros Hi. destruct e as [v| |k| |]; simpl.
  - destruct (isScanning st) eqn:Hs; [assumption|].
    destruct Hi; split; simpl; auto.
  - destruct (isScanning st) eqn:Hs; [assumption|].
    now apply page_invariant_handleScan.
  - unfold handleKeyDown.
    destruct (isScanning st) eqn:Hs; rewrite ?andb_false_r; [assumption|].
    destruct (String.eqb k "Enter"); [|assumption].
    now apply page_invariant_handleScan.
  - destruct (suspended st) as [|captured rest] eqn:Hq; [assumption|].
    destruct Hi as [Hw Hl He Hv]. rewrite Hq in Hl. simpl in Hl.
    assert (rest = []) as -> by (destruct rest; [reflexivity | simpl in Hl; lia]).
    assert (isScanning st = true) as Hs.
    { destruct (isScanning st); [reflexivity|]. rewrite Hw in Hq; [discriminate|reflexivity]. }
    unfold handleScan_resumed. simpl.
    destruct (generateMockResult _ _) as [[r h]|]; split; simpl;
      rewrite ?Hq; simpl; auto; try congruence; try lia.
  - unfold sortedIssues. destruct (result st); [|assumption].
    destruct (heap st !! _); [|assumption].
    destruct Hi; split; simpl; auto.
Qed.

Lemma page_invariant_reachable (st : State) :
  reachable st -> page_invariant st.
Proof.
  induction 1 as [h|st e _ IH].
  - apply page_invariant_initial.
  - now apply page_invariant_step.
Qed.

Lemma reachable_run (st : State) (events : list Event) :
  reachable st -> reachable (run st events).
Proof.
  revert st. induction events as [|e events IH]; intros st H; simpl; [assumption|].
  apply IH. now constructor.
Qed.

End Invariants.

(** ** The severity ordering *)

Section Ranking.

Local Abbreviation insert := (Array.insert compareSeverity).

Lemma compareSeverity_le (a b : Issue.t) :
  (compareSeverity a b <=? 0)%Z = true <-> severity_le a b.
Proof. unfold compareSeverity, severity_le. rewrite Z.leb_le. lia. Qed.

Lemma compareSeverity_gt (a b : Issue.t) :
  (compareSeverity a b <=? 0)%Z = false ->
  severity_le b a /\ Issue.severity a <> Issue.severity b.
Proof.
  unfold compareSeverity, severity_le. rewrite Z.leb_gt. intros H.
  split; [lia|]. intros E. rewrite E in H. lia.
Qed.

Lemma insert_perm (x : Issue.t) (l : list Issue.t) :
  Permutation (x :: l) (insert x l).
Proof.
  induction l as [|y l IH]; simpl; [reflexivity|].
  destruct (compareSeverity x y <=? 0)%Z; [reflexivity|].
  rewrite perm_swap. now constructor.
Qed.

Lemma rank_perm (l : list Issue.t) : Permutation l (rank l).
Proof.
  induction l as [|x l IH]; simpl; [reflexivity|].
  etransitivity; [|apply insert_perm]. now constructor.
Qed.

Lemma insert_sorted (x : Issue.t) (l : list Issue.t) :
  Sorted severity_le l -> Sorted severity_le (insert x l).
Proof.
  induction l as [|y l IH]; simpl; intros Hs.
  - repeat constructor.
  - destruct (compareSeverity x y <=? 0)%Z eqn:E.
    + constructor; [assumption|]. constructor. now apply compareSeverity_le.
    + apply compareSeverity_gt in E as [Hyx _].
      inversion Hs as [|? ? Hl Hhd]; subst.
      constructor; [now apply IH|].
      destruct l as [|z l]; simpl; [now constructor|].
      destruct (compareSeverity x z <=? 0)%Z; constructor; [assumption|].
      now inversion Hhd.
Qed.

Lemma rank_sorted (l : list Issue.t) : Sorted severity_le (rank l).
Proof.
  induction l as [|x l IH]; simpl; [constructor|]. now apply insert_sorted.
Qed.

Lemma has_severity_spec (s : Severity) (i : Issue.t) :
  has_severity s i = true <-> Issue.severity i = s.
Proof.
  unfold has_severity. rewrite Z.eqb_eq.
  destruct (Issue.severity i), s; simpl; split; congruence || lia.
Qed.

(** Insertion never moves an issue across one of its own severity. *)
Lemma insert_filter (s : Severity) (x : Issue.t) (l : list Issue.t) :
  List.filter (has_severity s) (insert x l) = List.filter (has_severity s) (x :: l).
Proof.
  induction l as [|y l IH]; [reflexivity|].
  cbn [Array.insert]. destruct (compareSeverity x y <=? 0)%Z eqn:E; [reflexivity|].
  apply compareSeverity_gt in E as [_ Hne].
  cbn [List.filter] in *. rewrite IH.
  destruct (has_severity s x) eqn:Hx, (has_severity s y) eqn:Hy; try reflexivity.
  apply has_severity_spec in Hx, Hy. congruence.
Qed.

Lemma rank_filter (s : Severity) (l : list Issue.t) :
  List.filter (has_severity s) (rank l) = List.filter (has_severity s) l.
Proof.
  induction l as [|x l IH]; [reflexivity|].
  unfold rank in *. cbn [Array.sort]. rewrite insert_filter.
  cbn [List.filter]. now rewrite IH.
Qed.

Lemma severity_le_trans : Relations_1.Transitive severity_le.
Proof. unfold severity_le. intros a b c. lia. Qed.

Lemma filter_none (s : Severity) (l : list Issue.t) :
  Forall (fun i => Issue.severity i <> s) l -> List.filter (has_severity s) l = [].
Proof.
  induction 1 as [|x l Hx _ IH]; [reflexivity|]. cbn [List.filter].
  destruct (has_severity s x) eqn:E; [|assumption].
  now apply has_severity_spec in E.
Qed.

Lemma has_severity_ne (s : Severity) (i : Issue.t) :
  Issue.severity i <> s -> has_severity s i = false.
Proof.
  intros H. destruct (has_severity s i) eqn:E; [|reflexivity].
  now apply has_severity_spec in E.
Qed.

(** Below an issue of severity [s0], no issue has a severity that
    sorts before [s0]. *)
Lemma filter_below (s s0 : Severity) (x : Issue.t) (l : list Issue.t) :
  Issue.severity x = s0 -> (severityOrder s < severityOrder s0)%Z ->
  Forall (severity_le x) l -> List.filter (has_severity s) l = [].
Proof.
  intros Ex Hlt Hx. apply filter_none. eapply List.Forall_impl; [|exact Hx].
  unfold severity_le. rewrite Ex. intros i Hi E. rewrite E in Hi. lia.
Qed.

(** A list in severity order is its critical issues, then its moderate
    ones, then its minor ones. *)
Lemma sorted_by_classes (l : list Issue.t) :
  Sorted severity_le l ->
  l = List.filter (has_severity critical) l
      ++ List.filter (has_severity moderate) l
      ++ List.filter (has_severity minor) l.
Proof.
  intros Hs. apply (Sorted_StronglySorted severity_le_trans) in Hs.
  induction Hs as [|x l Hl IH Hx]; [reflexivity|].
  cbn [List.filter].
  destruct (Issue.severity x) eqn:Ex.
  - rewrite (proj2 (has_severity_spec critical x) Ex).
    rewrite !has_severity_ne by congruence.
    cbn [app]. now rewrite <- IH.
  - rewrite (proj2 (has_severity_spec moderate x) Ex).
    rewrite !has_severity_ne by congruence.
    rewrite (filter_below critical moderate x l Ex) in * by (simpl; lia || assumption).
    cbn [app] in *. now rewrite <- IH.
  - rewrite (proj2 (has_severity_spec minor x) Ex).
    rewrite !has_severity_ne by congruence.
    rewrite (filter_below critical minor x l Ex) in * by (simpl; lia || assumption).
    rewrite (filter_below moderate minor x l Ex) in * by (simpl; lia || assumption).
    cbn [app] in *. now rewrite <- IH.
Qed.

(** The outcome of a stable sort by severity is determined: whatever
    list is in severity order and keeps each severity's issues in their
    input order is [rank] of the input. *)
Lemma ranked_unique (l l' : list Issue.t) :
  Sorted severity_le l' ->
  (forall s, List.filter (has_severity s) l' = List.filter (has_severity s) l) ->
  l' = rank l.
Proof.
  intros Hs Hf.
  rewrite (sorted_by_classes l' Hs), (sorted_by_classes (rank l) (rank_sorted l)).
  now rewrite !Hf, !rank_filter.
Qed.

End Ranking.

(** ** Ranking (section 4.3) *)

(** C6: [rank], the order the render puts the issues in, is a stable sort
    by severity under critical < moderate < minor: in its output every
    issue is followed by one of the same or a later severity, the issues
    of each severity appear in their input order, nothing is lost or
    added, and issues given as minor, critical, moderate come out as
    critical, moderate, minor, also on the page after a scan. *)
Theorem rank_is_stable_sort_by_severity (l : list Issue.t) :
  (severityOrder critical < severityOrder moderate < severityOrder minor)%Z
  /\ Sorted severity_le (rank l)
  /\ (forall s, List.filter (has_severity s) (rank l) = List.filter (has_severity s) l)
  /\ Permutation l (rank l)
  /\ (forall a b c,
        rank [with_severity minor a; with_severity critical b; with_severity moderate c]
        = [with_severity critical b; with_severity moderate c; with_severity minor a])
  /\ map Issue.severity
       <$> issues_grid (run URL.constructs sample_scan (initial ∅)
                            [Change "example.com"; Click; Timeout])
     = Some [critical; moderate; minor].
Proof.
  split; [simpl; lia|].
  split; [apply rank_sorted|].
  split; [intros s; apply rank_filter|].
  split; [apply rank_perm|].
  split; [reflexivity|].
  vm_compute. reflexivity.
Qed.

(** ** Submitting *)

Section Submit.

Variable newURL : string -> bool.
Variable generateMockResult : string -> store -> option (ScanResult.t * store).

Local Abbreviation step := (step newURL generateMockResult).
Local Abbreviation run := (run newURL generateMockResult).
Local Abbreviation reachable := (reachable newURL generateMockResult).

Lemma step_scanning_user (st : State) (e : Event) :
  isScanning st = true -> user_event e -> step st e = st.
Proof.
  intros Hs He. destruct e as [v| |k| |]; simpl in *; try contradiction.
  - now rewrite Hs.
  - now rewrite Hs.
  - unfold handleKeyDown. now rewrite Hs, andb_false_r.
Qed.

Lemma run_scanning_user (st : State) (events : list Event) :
  isScanning st = true -> Forall user_event events -> run st events = st.
Proof.
  intros Hs. induction 1 as [|e events He _ IH]; [reflexivity|].
  simpl. fold step. now rewrite step_scanning_user.
Qed.

(** While a scan runs, no event changes the error. *)
Lemma error_step_scanning (st : State) (e : Event) :
  isScanning st = true -> error (step st e) = error st.
Proof.
  intros Hs. destruct e as [v| |k| |].
  - now rewrite step_scanning_user.
  - now rewrite step_scanning_user.
  - now rewrite step_scanning_user.
  - simpl. destruct (suspended st) as [|captured rest]; [reflexivity|].
    unfold handleScan_resumed. simpl.
    now destruct (generateMockResult _ _) as [[r h]|].
  - simpl. unfold sortedIssues. destruct (result st); [|reflexivity].
    now destruct (heap st !! _).
Qed.

(** A submit with accepted input: the error is cleared, the page shows
    the scan as running and the call waits for its timer. *)
Lemma submit_accepted (st : State) (input : string) :
  isScanning st = false -> validateUrl newURL input = true ->
  run st [Change input; Click]
  = await_timer input (setIsScanning true (setError None (setUrl input st))).
Proof.
  intros Hs Hv. simpl. rewrite Hs. simpl. rewrite Hs.
  unfold handleScan. simpl. now rewrite Hv.
Qed.


Lemma calls_handleScan_resumed (captured : string) (st : State) :
  calls (handleScan_resumed generateMockResult captured st)
  = calls st ++ [formattedUrl captured].
Proof.
  unfold handleScan_resumed. simpl.
  now destruct (generateMockResult _ _) as [[r h]|].
Qed.

(** The timer after an accepted submit wakes that submit's call. *)
Lemma calls_after_scan (st : State) (input : string) :
  isScanning st = false -> suspended st = [] ->
  validateUrl newURL input = true ->
  calls (run st [Change input; Click; Timeout])
  = calls st ++ [formattedUrl input].
Proof.
  intros Hs Hq Hv.
  change [Change input; Click; Timeout] with ([Change input; Click] ++ [Timeout]).
  unfold run. rewrite fold_left_app. fold (run st [Change input; Click]).
  rewrite submit_accepted by assumption.
  simpl. rewrite Hq. simpl. now rewrite calls_handleScan_resumed.
Qed.

(** The resumed handler applies the collaborator to the normalised
    form of the url it captured, on the store as it stands. *)
Lemma scan_outcome_resumed (captured : string) (st : State) :
  scan_outcome (generateMockResult (formattedUrl captured) (heap st)) st
               (handleScan_resumed generateMockResult captured st).
Proof.
  unfold scan_outcome, handleScan_resumed. simpl.
  destruct (generateMockResult _ _) as [[r h]|]; simpl; auto.
Qed.

Lemma scan_outcome_timeout (st : State) (captured : string) (rest : list string) :
  suspended st = captured :: rest ->
  scan_outcome (generateMockResult (formattedUrl captured) (heap st)) st
               (step st Timeout).
Proof.
  intros Hq. simpl. rewrite Hq.
  exact (scan_outcome_resumed captured (resume_oldest st)).
Qed.

(** The timer after an accepted submit: the collaborator is applied to
    the normalised input. *)
Lemma scan_outcome_after_submit (st : State) (input : string) :
  isScanning st = false -> suspended st = [] ->
  validateUrl newURL input = true ->
  scan_outcome (generateMockResult (formattedUrl input) (heap st))
               (run st [Change input; Click])
               (run st [Change input; Click; Timeout]).
Proof.
  intros Hs Hq Hv.
  change [Change input; Click; Timeout] with ([Change input; Click] ++ [Timeout]).
  unfold run at 2. rewrite fold_left_app. fold (run st [Change input; Click]).
  rewrite submit_accepted by assumption.
  set (st1 := await_timer input _).
  assert (Hq1 : suspended st1 = [input]) by (simpl; now rewrite Hq).
  exact (scan_outcome_timeout st1 input [] Hq1).
Qed.

End Submit.

(** C8: while a scan runs, clicks on the button, key presses in the
    input (Enter included) and edits of the input, in any number and
    order, leave the whole state as it is: the waiting call and its
    target, error, result and the record of collaborator calls.  At most
    one call ever waits. *)
Theorem submit_while_scanning_is_noop
    (newURL : string -> bool)
    (generateMockResult : string -> store -> option (ScanResult.t * store))
    (st : State) (events : list Event) :
  reachable newURL generateMockResult st ->
  isScanning st = true ->
  Forall user_event events ->
  run newURL generateMockResult st events = st
  /\ length (suspended st) <= 1.
Proof.
  intros Hr Hs He. split.
  - now apply run_scanning_user.
  - now apply (page_invariant_reachable newURL generateMockResult).
Qed.

Lemma submit_while_scanning_is_noop_witness :
  let st := run URL.constructs sample_scan (initial ∅) [Change "example.com"; Click] in
  let events := [Change "other.org"; Click; KeyDown "Enter"; KeyDown "a"] in
  reachable URL.constructs sample_scan st
  /\ isScanning st = true
  /\ Forall user_event events
  /\ run URL.constructs sample_scan st events = st
  /\ suspended st = ["example.com"].
Proof.
  intros st events.
  assert (Hr : reachable URL.constructs sample_scan st)
    by apply reachable_run, reachable_initial.
  assert (Hs : isScanning st = true) by reflexivity.
  assert (He : Forall user_event events) by (repeat constructor).
  split; [exact Hr|]. split; [exact Hs|]. split; [exact He|].
  split; [|reflexivity].
  exact (proj1 (submit_while_scanning_is_noop _ _ st events Hr Hs He)).
Defined.

(** C7: submitting example.com passes validation; the page shows the
    scan as running, with no error, and when the timer fires the
    collaborator is applied to exactly https://example.com: what the
    page then holds is that call's answer.  This holds for every URL
    constructor and from every reachable state in which no scan runs. *)
Theorem example_com_is_scanned
    (newURL : string -> bool)
    (generateMockResult : string -> store -> option (ScanResult.t * store))
    (st : State) :
  implements_URL newURL ->
  reachable newURL generateMockResult st ->
  isScanning st = false ->
  let st1 := run newURL generateMockResult st [Change "example.com"; Click] in
  let st2 := step newURL generateMockResult st1 Timeout in
  validateUrl newURL "example.com" = true
  /\ formattedUrl "example.com" = "https://example.com"
  /\ isScanning st1 = true
  /\ error st1 = None
  /\ suspended st1 = ["example.com"]
  /\ calls st1 = calls st
  /\ calls st2 = calls st ++ ["https://example.com"]
  /\ scan_outcome (generateMockResult "https://example.com" (heap st)) st1 st2.
Proof.
  intros Hu Hr Hs st1 st2.
  assert (Hv : validateUrl newURL "example.com" = true).
  { rewrite validateUrl_unfold. apply andb_true_iff. split; [reflexivity|].
    apply (proj1 (Hu _)). vm_compute. reflexivity. }
  assert (Hq : suspended st = [])
    by now apply (page_invariant_reachable _ _ _ Hr).
  assert (E : st1 = await_timer "example.com"
                      (setIsScanning true (setError None (setUrl "example.com" st))))
    by now apply submit_accepted.
  split; [exact Hv|]. split; [reflexivity|].
  assert (Hq1 : suspended st1 = ["example.com"]) by (rewrite E; simpl; now rewrite Hq).
  split; [now rewrite E|]. split; [now rewrite E|]. split; [exact Hq1|].
  split; [now rewrite E|].
  split.
  - subst st2. rewrite E. simpl. rewrite Hq. simpl.
    now rewrite calls_handleScan_resumed.
  - pose proof (scan_outcome_timeout newURL generateMockResult st1 "example.com" [] Hq1) as H.
    rewrite E in H at 1. exact H.
Qed.

Lemma example_com_is_scanned_witness :
  let st := initial ∅ in
  let st2 := run URL.constructs sample_scan st [Change "example.com"; Click; Timeout] in
  implements_URL URL.constructs
  /\ reachable URL.constructs sample_scan st
  /\ isScanning st = false
  /\ calls st2 = ["https://example.com"]
  /\ ScanResult.url <$> result st2 = Some "https://example.com".
Proof.
  intros st st2.
  assert (Hr : reachable URL.constructs sample_scan st) by constructor.
  assert (Hs : isScanning st = false) by reflexivity.
  split; [exact constructs_implements_URL|]. split; [exact Hr|]. split; [exact Hs|].
  pose proof (example_com_is_scanned URL.constructs sample_scan st
                constructs_implements_URL Hr Hs) as (_ & _ & _ & _ & _ & _ & H7 & H8).
  split; [exact H7|].
  destruct H8 as (H8 & _). change (result st2 = Some
    (ScanResult.mk "https://example.com" "2024-01-01T00:00:00.000Z" 72 "fair"
                   (fresh (dom (heap st))) [])) in H8.
  now rewrite H8.
Defined.

(** C9: the scheme test is the literal, case-sensitive prefix http.  An
    input with that prefix (http.foo and httpx.com have it) is tested by
    [new URL] and handed to the collaborator as it is; any other input,
    HTTPS://example.com included, gets https:// put in front for both
    uses.  HTTPS://example.com is accepted, and the collaborator is
    applied to https://HTTPS://example.com: the page holds that call's
    answer. *)
Theorem scheme_test_is_literal_http_prefix (newURL : string -> bool) (input : string) :
  (JS.startsWith input "http" = true <-> exists rest, input = "http" +:+ rest)
  /\ validateUrl newURL input
     = (if JS.startsWith input "http" then newURL input
        else JS.truthy (JS.trim input) && newURL ("https://" +:+ input))
  /\ formattedUrl input
     = (if JS.startsWith input "http" then input else "https://" +:+ input)
  /\ JS.startsWith "http.foo" "http" = true
  /\ JS.startsWith "httpx.com" "http" = true
  /\ JS.startsWith "HTTPS://example.com" "http" = false
  /\ URL.parse "https://HTTPS://example.com" = URL.Parsed
  /\ validateUrl URL.constructs "HTTPS://example.com" = true
  /\ (forall generateMockResult h,
        calls (run URL.constructs generateMockResult (initial h)
                   [Change "HTTPS://example.com"; Click; Timeout])
        = ["https://HTTPS://example.com"])
  /\ (forall generateMockResult st,
        scan_outcome
          (generateMockResult
             (if JS.startsWith input "http" then input else "https://" +:+ input)
             (heap st))
          st (handleScan_resumed generateMockResult input st))
  /\ (forall generateMockResult h,
        scan_outcome
          (generateMockResult "https://HTTPS://example.com" h)
          (run URL.constructs generateMockResult (initial h)
               [Change "HTTPS://example.com"; Click])
          (run URL.constructs generateMockResult (initial h)
               [Change "HTTPS://example.com"; Click; Timeout])).
Proof.
  split; [apply startsWith_http_spec|].
  split.
  { destruct (JS.startsWith input "http") eqn:E.
    - now apply validateUrl_http.
    - rewrite validateUrl_unfold, E. reflexivity. }
  split; [reflexivity|].
  do 3 (split; [reflexivity|]).
  split; [vm_compute; reflexivity|].
  assert (Hv : validateUrl URL.constructs "HTTPS://example.com" = true)
    by (vm_compute; reflexivity).
  split; [exact Hv|].
  split; [intros gen h; now rewrite calls_after_scan|].
  split; [intros gen st; apply scan_outcome_resumed|].
  intros gen h.
  exact (scan_outcome_after_submit URL.constructs gen (initial h) "HTTPS://example.com"
           eq_refl eq_refl Hv).
Qed.

(** C10: the input is used as typed.  [trim] only decides whether the
    input counts as empty; what [new URL] tests and what the collaborator
    is applied to is the raw input, with https:// in front when it does
    not start with http.  An input with whitespace at its end that the
    input element lets through, example.com followed by a vertical tab,
    passes validation and reaches the collaborator with that
    whitespace. *)
Theorem collaborator_receives_raw_input
    (newURL : string -> bool)
    (generateMockResult : string -> store -> option (ScanResult.t * store))
    (st : State) (input : string) :
  implements_URL newURL ->
  reachable newURL generateMockResult st ->
  isScanning st = false ->
  validateUrl newURL input = true ->
  let raw := if JS.startsWith input "http" then input else "https://" +:+ input in
  let padded := "example.com" +:+ String "011" EmptyString in
  calls (run newURL generateMockResult st [Change input; Click; Timeout])
  = calls st ++ [raw]
  /\ scan_outcome (generateMockResult raw (heap st))
       (run newURL generateMockResult st [Change input; Click])
       (run newURL generateMockResult st [Change input; Click; Timeout])
  /\ validateUrl newURL input = JS.truthy (JS.trim input) && newURL raw
  /\ HTML.sanitize_url padded = padded
  /\ JS.trim padded = "example.com"
  /\ validateUrl newURL padded = true
  /\ formattedUrl padded = "https://" +:+ padded.
Proof.
  intros Hu Hr Hs Hv raw padded.
  assert (Hq : suspended st = [])
    by now apply (page_invariant_reachable _ _ _ Hr).
  split; [now rewrite calls_after_scan|].
  split; [now apply scan_outcome_after_submit|].
  split; [apply validateUrl_unfold|].
  do 2 (split; [vm_compute; reflexivity|]).
  split; [|reflexivity].
  rewrite validateUrl_unfold. apply andb_true_iff. split; [reflexivity|].
  apply (proj1 (Hu _)). vm_compute. reflexivity.
Qed.

Lemma collaborator_receives_raw_input_witness :
  let st := initial ∅ in
  let padded := "example.com" +:+ String "011" EmptyString in
  let st2 := run URL.constructs sample_scan st [Change padded; Click; Timeout] in
  implements_URL URL.constructs
  /\ reachable URL.constructs sample_scan st
  /\ isScanning st = false
  /\ validateUrl URL.constructs padded = true
  /\ calls st2 = ["https://" +:+ padded]
  /\ ScanResult.url <$> result st2 = Some ("https://" +:+ padded).
Proof.
  intros st padded st2.
  assert (Hr : reachable URL.constructs sample_scan st) by constructor.
  assert (Hs : isScanning st = false) by reflexivity.
  assert (Hv : validateUrl URL.constructs padded = true)
    by (vm_compute; reflexivity).
  split; [exact constructs_implements_URL|]. split; [exact Hr|]. split; [exact Hs|].
  split; [exact Hv|].
  pose proof (collaborator_receives_raw_input URL.constructs sample_scan st padded
                constructs_implements_URL Hr Hs Hv) as (H1 & H2 & _).
  split; [exact H1|].
  destruct H2 as (H2 & _). change (result st2 = Some
    (ScanResult.mk ("https://" +:+ padded) "2024-01-01T00:00:00.000Z" 72 "fair"
                   (fresh (dom (heap st))) [])) in H2.
  now rewrite H2.
Defined.

(** ** Where the page differs from the specification *)

(** C5, as stated, fails: httpx.com has no scheme, is rejected, and is
    accepted once https:// is put in front. *)
Lemma httpx_com_prefixed_differs :
  URL.has_scheme "httpx.com" = false
  /\ validateUrl URL.constructs "httpx.com" = false
  /\ validateUrl URL.constructs ("https://" +:+ "httpx.com") = true.
Proof. repeat split; vm_compute; reflexivity. Qed.

(** C5, amended: an input that does not start with http is accepted
    exactly when the input with https:// in front is accepted.  A
    non-blank one is validated as the URL constructor answers on the
    prefixed input; for a blank one the parser fails on the prefixed
    input, so both are rejected.  This holds for every URL constructor,
    whatever it answers outside the modelled fragment. *)
Theorem validate_prefixed_equiv (newURL : string -> bool) (input : string) :
  implements_URL newURL ->
  JS.startsWith input "http" = false ->
  validateUrl newURL input = validateUrl newURL ("https://" +:+ input)
  /\ validateUrl newURL input
     = JS.truthy (JS.trim input) && newURL ("https://" +:+ input)
  /\ (JS.truthy (JS.trim input) = true
      \/ URL.parse ("https://" +:+ input) = URL.Failure).
Proof.
  intros Hu Hp. fold (JS.https input).
  assert (G : validateUrl newURL input
              = JS.truthy (JS.trim input) && newURL (JS.https input))
    by (rewrite validateUrl_unfold, Hp; reflexivity).
  rewrite (validateUrl_https newURL input), G.
  destruct (JS.trim input) eqn:Et.
  - pose proof (blank_prefixed_rejected input Et) as Hf.
    rewrite (proj2 (Hu _) Hf). simpl. auto.
  - simpl. auto.
Qed.

Lemma validate_prefixed_equiv_witness :
  let input := String "160" " " in
  implements_URL URL.constructs
  /\ JS.startsWith input "http" = false
  /\ validateUrl URL.constructs input
     = validateUrl URL.constructs ("https://" +:+ input)
  /\ URL.parse ("https://" +:+ input) = URL.Failure.
Proof.
  intros input.
  assert (Hp : JS.startsWith input "http" = false) by reflexivity.
  pose proof (validate_prefixed_equiv URL.constructs input constructs_implements_URL Hp)
    as (H1 & _ & H3).
  split; [exact constructs_implements_URL|]. split; [exact Hp|]. split; [exact H1|].
  destruct H3 as [H3|H3]; [discriminate H3 | exact H3].
Defined.




(** C1, as stated, fails: after a finished scan, a submit with an empty
    input sets the error and keeps the result of the earlier scan. *)
Lemma error_and_result_both_set :
  let before := run URL.constructs sample_scan (initial ∅)
                    [Change "example.com"; Click; Timeout; Change EmptyString] in
  let st := step URL.constructs sample_scan before Click in
  reachable URL.constructs sample_scan st
  /\ error st = Some validation_message
  /\ result st <> None
  /\ result st = result before.
Proof.
  intros before st. split.
  - apply reachable_step, reachable_run, reachable_initial.
  - repeat split; vm_compute; discriminate || reflexivity.
Qed.

(** C1, amended: in every reachable state a non-null error means that no
    scan is running and no call waits.  Every submit clears the error
    before validation runs: the error it leaves is null when the input is
    accepted and the validation message otherwise, whatever the error was
    before.  A submit does not touch the result: the only event that
    changes the result is a timer that wakes a waiting call whose
    collaborator call returns, and the result is then what it returned. *)
Theorem error_cleared_on_submit_result_kept
    (newURL : string -> bool)
    (generateMockResult : string -> store -> option (ScanResult.t * store))
    (st : State) :
  reachable newURL generateMockResult st ->
  (error st = None \/ (isScanning st = false /\ suspended st = []))
  /\ handleScan newURL st = handleScan newURL (setError None st)
  /\ error (handleScan newURL st)
     = (if validateUrl newURL (url st) then None else Some validation_message)
  /\ result (handleScan newURL st) = result st
  /\ (forall e,
        result (step newURL generateMockResult st e)
        = match e, suspended st with
          | Timeout, captured :: _ =>
              match generateMockResult (formattedUrl captured) (heap st) with
              | Some (scanResult, _) => Some scanResult
              | None => result st
              end
          | _, _ => result st
          end).
Proof.
  intros Hr. apply page_invariant_reachable in Hr as [Hw _ He _].
  split.
  { destruct (error st) as [m|] eqn:Em; [right | now left].
    destruct (isScanning st) eqn:Hs.
    - now specialize (He eq_refl).
    - split; [reflexivity | now apply Hw]. }
  assert (Hh : result (handleScan newURL st) = result st).
  { unfold handleScan. simpl. now destruct (validateUrl newURL (url st)). }
  split; [|split; [|split; [exact Hh|]]].
  - unfold handleScan. simpl. reflexivity.
  - unfold handleScan. simpl. now destruct (validateUrl newURL (url st)).
  - intros e. destruct e as [v| |k| |]; simpl.
    + now destruct (isScanning st).
    + now destruct (isScanning st).
    + unfold handleKeyDown.
      now destruct (String.eqb k "Enter" && negb (isScanning st)).
    + destruct (suspended st) as [|captured rest]; [reflexivity|].
      unfold handleScan_resumed. simpl.
      now destruct (generateMockResult _ _) as [[r h]|].
    + unfold sortedIssues. destruct (result st) as [r|] eqn:E; simpl.
      * destruct (heap st !! _); simpl; now rewrite E.
      * now rewrite E.
Qed.

Lemma error_cleared_on_submit_result_kept_witness :
  let st := run URL.constructs sample_scan (initial ∅)
                [Change "example.com"; Click; Timeout; Change EmptyString; Click] in
  reachable URL.constructs sample_scan st
  /\ handleScan URL.constructs st = handleScan URL.constructs (setError None st)
  /\ result (handleScan URL.constructs st) = result st
  /\ result (step URL.constructs sample_scan st (Change "other.org")) = result st.
Proof.
  intros st.
  assert (Hr : reachable URL.constructs sample_scan st)
    by apply reachable_run, reachable_initial.
  pose proof (error_cleared_on_submit_result_kept _ _ st Hr) as (_ & H2 & _ & H4 & H5).
  split; [exact Hr|]. split; [exact H2|]. split; [exact H4|].
  exact (H5 (Change "other.org")).
Defined.

(** C4, as stated, fails: when the collaborator fails, the page keeps
    showing the scan as running, with no error, and a further submit
    does nothing. *)
Lemma failed_scan_stays_scanning :
  let st := run URL.constructs failing_scan (initial ∅)
                [Change "example.com"; Click; Timeout] in
  calls st = ["https://example.com"]
  /\ isScanning st = true
  /\ error st = None
  /\ result st = None
  /\ step URL.constructs failing_scan st Click = st.
Proof. repeat split; vm_compute; reflexivity. Qed.

(** C4, amended: when the collaborator fails, the failure is not handled:
    the scan stays shown as running, error stays null, the result is what
    it was, no call waits any more, and clicks and key presses do
    nothing.  From no reachable state with a scan running does any event
    lead to a state with an error. *)
Theorem failed_scan_is_not_handled
    (newURL : string -> bool)
    (generateMockResult : string -> store -> option (ScanResult.t * store))
    (st : State) :
  reachable newURL generateMockResult st ->
  isScanning st = true ->
  (forall e, error (step newURL generateMockResult st e) = None)
  /\ (forall captured,
        head (suspended st) = Some captured ->
        generateMockResult (formattedUrl captured) (heap st) = None ->
        let st' := step newURL generateMockResult st Timeout in
        isScanning st' = true
        /\ error st' = None
        /\ result st' = result st
        /\ suspended st' = []
        /\ calls st' = calls st ++ [formattedUrl captured]
        /\ step newURL generateMockResult st' Click = st'
        /\ (forall key, step newURL generateMockResult st' (KeyDown key) = st')).
Proof.
  intros Hr Hs.
  pose proof (page_invariant_reachable _ _ _ Hr) as [Hw Hl He _].
  split.
  { intros e. rewrite error_step_scanning by exact Hs. now apply He. }
  intros captured Hq Hg st'.
  destruct (suspended st) as [|c rest] eqn:Eq; [discriminate|].
  simpl in Hq. injection Hq as ->.
  assert (rest = []) as -> by (destruct rest; [reflexivity | simpl in Hl; lia]).
  assert (E : st' = record_call (formattedUrl captured) (resume_oldest st)).
  { subst st'. simpl. rewrite Eq. unfold handleScan_resumed. simpl. now rewrite Hg. }
  assert (Hs' : isScanning st' = true) by (rewrite E; exact Hs).
  split; [exact Hs'|].
  split; [rewrite E; simpl; now apply He|].
  split; [now rewrite E|].
  split; [rewrite E; simpl; now rewrite Eq|].
  split; [now rewrite E|].
  split; [now apply step_scanning_user|].
  intros key. now apply step_scanning_user.
Qed.

Lemma failed_scan_is_not_handled_witness :
  let st := run URL.constructs failing_scan (initial ∅) [Change "example.com"; Click] in
  let st' := step URL.constructs failing_scan st Timeout in
  reachable URL.constructs failing_scan st
  /\ isScanning st = true
  /\ head (suspended st) = Some "example.com"
  /\ failing_scan (formattedUrl "example.com") (heap st) = None
  /\ error (step URL.constructs failing_scan st Click) = None
  /\ isScanning st' = true
  /\ error st' = None.
Proof.
  intros st st'.
  assert (Hr : reachable URL.constructs failing_scan st)
    by apply reachable_run, reachable_initial.
  assert (Hs : isScanning st = true) by reflexivity.
  assert (Hq : head (suspended st) = Some "example.com") by reflexivity.
  assert (Hg : failing_scan (formattedUrl "example.com") (heap st) = None) by reflexivity.
  pose proof (failed_scan_is_not_handled _ _ st Hr Hs) as (HA & HB).
  pose proof (HB "example.com" Hq Hg) as (H1 & H2 & _).
  split; [exact Hr|]. split; [exact Hs|]. split; [exact Hq|]. split; [exact Hg|].
  split; [exact (HA Click)|]. split; [exact H1|exact H2].
Defined.

Lemma rank_idempotent (l : list Issue.t) : rank (rank l) = rank l.
Proof.
  symmetry. apply ranked_unique; [apply rank_sorted | reflexivity].
Qed.

(** C3, as stated, fails: after a scan whose issues came as minor,
    critical, moderate, one render leaves the stored result's array in
    the order critical, moderate, minor. *)
Lemma render_reorders_stored_issues :
  let st := run URL.constructs sample_scan (initial ∅)
                [Change "example.com"; Click; Timeout] in
  let st' := step URL.constructs sample_scan st Render in
  exists r,
    result st = Some r /\ result st' = Some r
    /\ map Issue.id <$> heap st !! ScanResult.issues r
       = Some ["issue-1"; "issue-2"; "issue-3"]
    /\ map Issue.id <$> heap st' !! ScanResult.issues r
       = Some ["issue-2"; "issue-3"; "issue-1"]
    /\ heap st' !! ScanResult.issues r <> heap st !! ScanResult.issues r.
Proof.
  eexists. split; [vm_compute; reflexivity|].
  repeat split; vm_compute; reflexivity || discriminate.
Qed.

(** C3, amended: the ranking sorts the stored result's array of issues
    where it is.  [sortedIssues] is that same array; after the render it
    holds the issues it held, in severity order; every other array and
    every other part of the state, the result's fields included, is left
    alone, and a second render changes nothing more. *)
Theorem ranking_sorts_stored_array_in_place
    (st : State) (r : ScanResult.t) (elements : list Issue.t) :
  result st = Some r ->
  heap st !! ScanResult.issues r = Some elements ->
  let st' := snd (sortedIssues st) in
  fst (sortedIssues st) = Some (ScanResult.issues r)
  /\ heap st' !! ScanResult.issues r = Some (rank elements)
  /\ Permutation elements (rank elements)
  /\ (forall a, a <> ScanResult.issues r -> heap st' !! a = heap st !! a)
  /\ st' = setHeap (heap st') st
  /\ sortedIssues st' = (Some (ScanResult.issues r), st').
Proof.
  intros Hres Hh st'.
  assert (E : sortedIssues st
              = (Some (ScanResult.issues r),
                 setHeap (<[ScanResult.issues r := rank elements]> (heap st)) st)).
  { unfold sortedIssues. now rewrite Hres, Hh. }
  subst st'. rewrite E. simpl.
  split; [reflexivity|].
  split; [apply lookup_insert_eq|].
  split; [apply rank_perm|].
  split; [intros a Ha; now apply lookup_insert_ne|].
  split; [reflexivity|].
  unfold sortedIssues. simpl. rewrite Hres, lookup_insert_eq.
  fold (rank (rank elements)). rewrite rank_idempotent.
  now rewrite insert_insert_eq.
Qed.

Lemma ranking_sorts_stored_array_in_place_witness :
  let st := run URL.constructs sample_scan (initial ∅)
                [Change "example.com"; Click; Timeout] in
  let r := ScanResult.mk "https://example.com" "2024-01-01T00:00:00.000Z" 72 "fair"
                         1%positive [] in
  result st = Some r
  /\ heap st !! ScanResult.issues r = Some sample_issues
  /\ heap (snd (sortedIssues st)) !! ScanResult.issues r = Some (rank sample_issues).
Proof.
  intros st r.
  assert (Hres : result st = Some r) by (vm_compute; reflexivity).
  assert (Hh : heap st !! ScanResult.issues r = Some sample_issues)
    by (vm_compute; reflexivity).
  split; [exact Hres|]. split; [exact Hh|].
  exact (proj1 (proj2 (ranking_sorts_stored_array_in_place st r sample_issues Hres Hh))).
Defined.

(** * Further properties of the page *)

(** ** Validation and normalisation *)

Lemma trimStart_blank (s : string) :
  Forall blank_char (list_ascii_of_string s) -> JS.trimStart s = EmptyString.
Proof.
  induction s as [|c s IH]; simpl; intros H; [reflexivity|].
  inversion H as [|? ? Hc Hs]; subst. unfold blank_char in Hc. rewrite Hc. now apply IH.
Qed.

(** X1: an input made only of whitespace characters, the empty input
    included, is rejected without consulting the URL constructor. *)
Theorem blank_input_rejected (newURL : string -> bool) (input : string) :
  Forall blank_char (list_ascii_of_string input) ->
  validateUrl newURL input = false.
Proof.
  intros H. apply validateUrl_blank. unfold JS.trim.
  now rewrite trimStart_blank.
Qed.

Lemma blank_input_rejected_witness :
  let input := String "009" (String "160" " ") in
  Forall blank_char (list_ascii_of_string input)
  /\ validateUrl (fun _ => true) input = false.
Proof.
  intros input.
  assert (H : Forall blank_char (list_ascii_of_string input))
    by (repeat constructor).
  split; [exact H|]. exact (blank_input_rejected (fun _ => true) input H).
Defined.

Lemma formattedUrl_startsWith (u : string) :
  JS.startsWith (formattedUrl u) "http" = true.
Proof.
  unfold formattedUrl. destruct (JS.startsWith u "http") eqn:E; [exact E|].
  apply startsWith_https.
Qed.

Lemma validateUrl_formattedUrl (newURL : string -> bool) (u : string) :
  validateUrl newURL u = true -> newURL (formattedUrl u) = true.
Proof.
  rewrite validateUrl_unfold. unfold formattedUrl.
  intros H. now apply andb_true_iff in H as [_ H].
Qed.

(** X2: normalising is idempotent, and an input is accepted exactly when
    it is not blank and its normalised form is accepted. *)
Theorem formattedUrl_idempotent (newURL : string -> bool) (u : string) :
  formattedUrl (formattedUrl u) = formattedUrl u
  /\ validateUrl newURL u
     = JS.truthy (JS.trim u) && validateUrl newURL (formattedUrl u).
Proof.
  pose proof (formattedUrl_startsWith u) as Hp. split.
  - unfold formattedUrl at 1. now rewrite Hp.
  - rewrite (validateUrl_http newURL (formattedUrl u)) by exact Hp.
    apply validateUrl_unfold.
Qed.

(** ** What is scanned *)

Section Targets.

Variable newURL : string -> bool.
Variable generateMockResult : string -> store -> option (ScanResult.t * store).

Local Abbreviation step := (step newURL generateMockResult).
Local Abbreviation reachable := (reachable newURL generateMockResult).
Local Abbreviation target_invariant := (target_invariant newURL).

Lemma target_invariant_handleScan (st : State) :
  target_invariant st -> target_invariant (handleScan newURL st).
Proof.
  intros [Hw Hc]. unfold handleScan.
  destruct (validateUrl newURL (url st)) eqn:Hv; simpl; split; simpl; auto.
  apply Forall_app. split; [exact Hw|]. now repeat constructor.
Qed.

Lemma target_invariant_step (st : State) (e : Event) :
  page_invariant st -> target_invariant st -> target_invariant (step st e).
Proof.
  intros Hp Ht. destruct e as [v| |k| |]; simpl.
  - destruct (isScanning st) eqn:Hs; [assumption|].
    destruct Ht as [Hw Hc]. split; simpl; [|exact Hc].
    rewrite (waiting_scans st Hp Hs). constructor.
  - destruct (isScanning st); [assumption|]. now apply target_invariant_handleScan.
  - unfold handleKeyDown.
    destruct (String.eqb k "Enter" && negb (isScanning st)); [|assumption].
    now apply target_invariant_handleScan.
  - destruct (suspended st) as [|captured rest] eqn:Hq; [assumption|].
    destruct Ht as [Hw Hc]. rewrite Hq in Hw.
    inversion Hw as [|? ? [Hv _] Hrest]; subst.
    assert (Hcalls : Forall (fun f => JS.startsWith f "http" = true /\ newURL f = true)
                       (calls st ++ [formattedUrl captured])).
    { apply Forall_app. split; [exact Hc|]. repeat constructor.
      - apply formattedUrl_startsWith.
      - now apply validateUrl_formattedUrl. }
    unfold handleScan_resumed. simpl.
    destruct (generateMockResult _ _) as [[r h]|]; split; simpl;
      rewrite ?Hq; simpl; assumption.
  - unfold sortedIssues. destruct (result st); [|assumption].
    destruct (heap st !! _); [|assumption].
    destruct Ht; split; simpl; assumption.
Qed.

Lemma target_invariant_reachable (st : State) :
  reachable st -> target_invariant st.
Proof.
  induction 1 as [h|st e Hr IH].
  - split; simpl; constructor.
  - apply target_invariant_step; [|exact IH].
    now apply (page_invariant_reachable newURL generateMockResult).
Qed.

Lemma result_kept_step (st : State) (e : Event) :
  is_Some (result st) -> is_Some (result (step st e)).
Proof.
  intros H. destruct e as [v| |k| |]; simpl.
  - now destruct (isScanning st).
  - destruct (isScanning st); [assumption|]. unfold handleScan.
    now destruct (validateUrl newURL (url st)).
  - unfold handleKeyDown.
    destruct (String.eqb k "Enter" && negb (isScanning st)); [|assumption].
    unfold handleScan. now destruct (validateUrl newURL (url st)).
  - destruct (suspended st) as [|captured rest]; [assumption|].
    unfold handleScan_resumed. simpl.
    destruct (generateMockResult _ _) as [[r h]|]; simpl; [eauto | assumption].
  - unfold sortedIssues. destruct H as [r E]. rewrite E.
    destruct (heap st !! _); simpl; rewrite E; eauto.
Qed.

End Targets.

(** X3: in every reachable state, when the timer wakes a waiting call,
    the collaborator is applied to a string that starts with http and
    that the URL constructor accepts, and the page holds that call's
    answer; the same is true of every call made so far. *)
Theorem collaborator_called_with_accepted_urls
    (newURL : string -> bool)
    (generateMockResult : string -> store -> option (ScanResult.t * store))
    (st : State) (captured : string) :
  reachable newURL generateMockResult st ->
  head (suspended st) = Some captured ->
  JS.startsWith (formattedUrl captured) "http" = true
  /\ newURL (formattedUrl captured) = true
  /\ scan_outcome (generateMockResult (formattedUrl captured) (heap st)) st
       (step newURL generateMockResult st Timeout)
  /\ Forall (fun f => JS.startsWith f "http" = true /\ newURL f = true) (calls st).
Proof.
  intros Hr Hq.
  pose proof (target_invariant_reachable _ _ _ Hr) as [Hw Hc].
  destruct (suspended st) as [|c rest] eqn:Eq; [discriminate|].
  simpl in Hq. injection Hq as ->.
  inversion Hw as [|? ? [Hv _] _]; subst.
  split; [apply formattedUrl_startsWith|].
  split; [now apply validateUrl_formattedUrl|].
  split; [now apply (scan_outcome_timeout _ _ _ captured rest)|exact Hc].
Qed.

Lemma collaborator_called_with_accepted_urls_witness :
  let st := run URL.constructs sample_scan (initial ∅)
                [Change "example.com"; Click; Timeout;
                 Change "http://a.example/x"; KeyDown "Enter"] in
  let st' := step URL.constructs sample_scan st Timeout in
  reachable URL.constructs sample_scan st
  /\ head (suspended st) = Some "http://a.example/x"
  /\ URL.constructs "http://a.example/x" = true
  /\ ScanResult.url <$> result st' = Some "http://a.example/x"
  /\ calls st = ["https://example.com"].
Proof.
  intros st st'.
  assert (Hr : reachable URL.constructs sample_scan st)
    by apply reachable_run, reachable_initial.
  assert (Hq : head (suspended st) = Some "http://a.example/x") by reflexivity.
  pose proof (collaborator_called_with_accepted_urls _ _ st _ Hr Hq)
    as (_ & H2 & H3 & _).
  split; [exact Hr|]. split; [exact Hq|]. split; [exact H2|].
  split; [|vm_compute; reflexivity].
  destruct H3 as (H3 & _). change (result st' = Some
    (ScanResult.mk "http://a.example/x" "2024-01-01T00:00:00.000Z" 72 "fair"
                   (fresh (dom (heap st))) [])) in H3.
  now rewrite H3.
Defined.

(** X4: while a call waits, its target is the text in the input: when
    the timer fires, the collaborator is applied to the normalised form
    of the input as it stands, the page holds that call's answer, the
    input was accepted, and its text is left as it is. *)
Theorem scan_target_is_current_input
    (newURL : string -> bool)
    (generateMockResult : string -> store -> option (ScanResult.t * store))
    (st : State) (captured : string) :
  reachable newURL generateMockResult st ->
  head (suspended st) = Some captured ->
  captured = url st
  /\ validateUrl newURL (url st) = true
  /\ scan_outcome (generateMockResult (formattedUrl (url st)) (heap st)) st
       (step newURL generateMockResult st Timeout)
  /\ calls (step newURL generateMockResult st Timeout)
     = calls st ++ [formattedUrl (url st)]
  /\ url (step newURL generateMockResult st Timeout) = url st.
Proof.
  intros Hr Hq.
  pose proof (target_invariant_reachable _ _ _ Hr) as [Hw _].
  destruct (suspended st) as [|c rest] eqn:Eq; [discriminate|].
  simpl in Hq. injection Hq as ->.
  inversion Hw as [|? ? [Hv Hu] _]; subst.
  split; [reflexivity|]. split; [exact Hv|].
  split; [now apply (scan_outcome_timeout _ _ _ (url st) rest)|].
  simpl. rewrite Eq. split; [now rewrite calls_handleScan_resumed|].
  unfold handleScan_resumed. simpl.
  now destruct (generateMockResult _ _) as [[r h]|].
Qed.

Lemma scan_target_is_current_input_witness :
  let st := run URL.constructs sample_scan (initial ∅)
                [Change "example.com"; Click; Change "other.org"; KeyDown "x"] in
  let st' := step URL.constructs sample_scan st Timeout in
  reachable URL.constructs sample_scan st
  /\ head (suspended st) = Some "example.com"
  /\ url st = "example.com"
  /\ ScanResult.url <$> result st' = Some "https://example.com"
  /\ calls st' = ["https://example.com"].
Proof.
  intros st st'.
  assert (Hr : reachable URL.constructs sample_scan st)
    by apply reachable_run, reachable_initial.
  assert (Hq : head (suspended st) = Some "example.com") by reflexivity.
  pose proof (scan_target_is_current_input _ _ st "example.com" Hr Hq)
    as (H1 & _ & H3 & H4 & _).
  split; [exact Hr|]. split; [exact Hq|]. split; [symmetry; exact H1|].
  split; [|exact H4].
  destruct H3 as (H3 & _). change (result st' = Some
    (ScanResult.mk "https://example.com" "2024-01-01T00:00:00.000Z" 72 "fair"
                   (fresh (dom (heap st))) [])) in H3.
  now rewrite H3.
Defined.

(** X5: a result, once stored, is never taken away: whatever events
    follow, some result stays stored. *)
Theorem result_never_cleared
    (newURL : string -> bool)
    (generateMockResult : string -> store -> option (ScanResult.t * store))
    (st : State) (events : list Event) :
  is_Some (result st) ->
  is_Some (result (run newURL generateMockResult st events)).
Proof.
  revert st. induction events as [|e events IH]; intros st H; simpl; [exact H|].
  apply IH. now apply result_kept_step.
Qed.

Lemma result_never_cleared_witness :
  let st := run URL.constructs sample_scan (initial ∅)
                [Change "example.com"; Click; Timeout] in
  let events := [Change EmptyString; Click; Render; Change "http.foo"; KeyDown "Enter"] in
  is_Some (result st)
  /\ is_Some (result (run URL.constructs sample_scan st events)).
Proof.
  intros st events.
  assert (H : is_Some (result st)) by (vm_compute; eauto).
  split; [exact H|].
  exact (result_never_cleared URL.constructs sample_scan st events H).
Defined.

(** ** What is shown *)

(** X6: the only message the page ever shows is the validation message,
    and the alert is rendered exactly when an error is set. *)
Theorem only_validation_message_shown
    (newURL : string -> bool)
    (generateMockResult : string -> store -> option (ScanResult.t * store))
    (st : State) :
  reachable newURL generateMockResult st ->
  (error st = None \/ error st = Some validation_message)
  /\ shows_error st = bool_decide (error st <> None)
  /\ aria_describedby st
     = (if bool_decide (error st <> None) then Some "url-error" else None)
  /\ aria_invalid st = (if bool_decide (error st <> None) then "true" else "false").
Proof.
  intros Hr.
  pose proof (only_validation_error st (page_invariant_reachable _ _ _ Hr)) as H.
  split; [exact H|].
  unfold shows_error, aria_describedby, aria_invalid, error_truthy.
  destruct H as [-> | ->]; repeat split; reflexivity.
Qed.

Lemma only_validation_message_shown_witness :
  let st := run URL.constructs sample_scan (initial ∅) [Change "http.foo"; Click] in
  reachable URL.constructs sample_scan st
  /\ error st = Some validation_message
  /\ shows_error st = true.
Proof.
  intros st.
  assert (Hr : reachable URL.constructs sample_scan st)
    by apply reachable_run, reachable_initial.
  split; [exact Hr|]. split; [reflexivity|].
  exact (proj1 (proj2 (only_validation_message_shown _ _ st Hr))).
Defined.

(** X7: while the loading region is shown, neither the alert nor the
    results are shown, and the input is not marked invalid and points
    to no error text. *)
Theorem loading_excludes_error_and_results
    (newURL : string -> bool)
    (generateMockResult : string -> store -> option (ScanResult.t * store))
    (st : State) :
  reachable newURL generateMockResult st ->
  shows_loading st = true ->
  shows_error st = false
  /\ shows_results st = false
  /\ aria_invalid st = "false"
  /\ aria_describedby st = None.
Proof.
  intros Hr Hs. unfold shows_loading in Hs.
  pose proof (scanning_no_error st (page_invariant_reachable _ _ _ Hr) Hs) as He.
  unfold shows_error, shows_results, aria_invalid, aria_describedby, error_truthy.
  rewrite He, Hs. repeat split; try reflexivity. now destruct (result st).
Qed.

Lemma loading_excludes_error_and_results_witness :
  let st := run URL.constructs sample_scan (initial ∅)
                [Change EmptyString; Click; Change "example.com"; Click] in
  reachable URL.constructs sample_scan st
  /\ shows_loading st = true
  /\ shows_error st = false.
Proof.
  intros st.
  assert (Hr : reachable URL.constructs sample_scan st)
    by apply reachable_run, reachable_initial.
  assert (Hs : shows_loading st = true) by reflexivity.
  split; [exact Hr|]. split; [exact Hs|].
  exact (proj1 (loading_excludes_error_and_results _ _ st Hr Hs)).
Defined.

(** X8: when the collaborator returns, the scan is over: its result is
    stored, the store is the one it left, no call waits, no error is
    set, and the page shows the results and neither the loading region
    nor the alert. *)
Theorem finished_scan_shows_result
    (newURL : string -> bool)
    (generateMockResult : string -> store -> option (ScanResult.t * store))
    (st : State) (captured : string) (r : ScanResult.t) (h : store) :
  reachable newURL generateMockResult st ->
  head (suspended st) = Some captured ->
  generateMockResult (formattedUrl captured) (heap st) = Some (r, h) ->
  let st' := step newURL generateMockResult st Timeout in
  isScanning st' = false
  /\ error st' = None
  /\ result st' = Some r
  /\ heap st' = h
  /\ suspended st' = []
  /\ shows_results st' = true
  /\ shows_loading st' = false
  /\ shows_error st' = false.
Proof.
  intros Hr Hq Hg st'.
  pose proof (page_invariant_reachable _ _ _ Hr) as [Hw Hl He _].
  destruct (suspended st) as [|c rest] eqn:Eq; [discriminate|].
  simpl in Hq. injection Hq as ->.
  assert (rest = []) as -> by (destruct rest; [reflexivity | simpl in Hl; lia]).
  assert (Hs : isScanning st = true).
  { destruct (isScanning st); [reflexivity|]. now specialize (Hw eq_refl). }
  assert (E : st' = setIsScanning false (setResult (Some r)
                      (setHeap h (record_call (formattedUrl captured) (resume_oldest st))))).
  { subst st'. simpl. rewrite Eq. unfold handleScan_resumed. simpl. now rewrite Hg. }
  rewrite E. unfold shows_results, shows_loading, shows_error, error_truthy. simpl.
  rewrite Eq, (He Hs). repeat split; reflexivity.
Qed.

Lemma finished_scan_shows_result_witness :
  let st := run URL.constructs sample_scan (initial ∅) [Change "example.com"; Click] in
  let r := ScanResult.mk "https://example.com" "2024-01-01T00:00:00.000Z" 72 "fair"
                         1%positive [] in
  reachable URL.constructs sample_scan st
  /\ head (suspended st) = Some "example.com"
  /\ sample_scan (formattedUrl "example.com") (heap st)
     = Some (r, {[1%positive := sample_issues]})
  /\ result (step URL.constructs sample_scan st Timeout) = Some r
  /\ shows_results (step URL.constructs sample_scan st Timeout) = true.
Proof.
  intros st r.
  assert (Hr : reachable URL.constructs sample_scan st)
    by apply reachable_run, reachable_initial.
  assert (Hq : head (suspended st) = Some "example.com") by reflexivity.
  assert (Hg : sample_scan (formattedUrl "example.com") (heap st)
               = Some (r, {[1%positive := sample_issues]}))
    by (vm_compute; reflexivity).
  pose proof (finished_scan_shows_result _ _ st "example.com" r _ Hr Hq Hg)
    as (_ & _ & H3 & _ & _ & H6 & _).
  split; [exact Hr|]. split; [exact Hq|]. split; [exact Hg|]. split; [exact H3|exact H6].
Defined.

(** X9: a key press in the input does what a click on the button does
    when the key is Enter, and nothing otherwise, in every state. *)
Theorem enter_is_click
    (newURL : string -> bool)
    (generateMockResult : string -> store -> option (ScanResult.t * store))
    (st : State) (key : string) :
  step newURL generateMockResult st (KeyDown key)
  = if String.eqb key "Enter" then step newURL generateMockResult st Click else st.
Proof.
  simpl. unfold handleKeyDown.
  destruct (String.eqb key "Enter"), (isScanning st); reflexivity.
Qed.

(** X10: a rejected submit moves the focus to the alert only when no
    alert was showing; rejecting the same input once more does not move
    the focus again. *)
Theorem alert_focused_once
    (newURL : string -> bool)
    (generateMockResult : string -> store -> option (ScanResult.t * store))
    (st : State) :
  reachable newURL generateMockResult st ->
  isScanning st = false ->
  validateUrl newURL (url st) = false ->
  let st1 := step newURL generateMockResult st Click in
  let st2 := step newURL generateMockResult st1 Click in
  error_focused st st1 = bool_decide (error st = None)
  /\ st2 = st1
  /\ error_focused st1 st2 = false.
Proof.
  intros Hr Hs Hv st1 st2.
  assert (E1 : st1 = setError (Some validation_message) st).
  { subst st1. simpl. rewrite Hs. unfold handleScan. simpl. rewrite Hv.
    now destruct st. }
  assert (E2 : st2 = st1).
  { subst st2. rewrite E1. simpl. rewrite Hs. unfold handleScan. simpl.
    now rewrite Hv. }
  split; [|split; [exact E2|]].
  - rewrite E1. unfold error_focused, error_truthy. simpl.
    pose proof (only_validation_error st (page_invariant_reachable _ _ _ Hr)) as [-> | ->];
      reflexivity.
  - rewrite E2. unfold error_focused.
    now rewrite bool_decide_eq_true_2.
Qed.

Lemma alert_focused_once_witness :
  let st := run URL.constructs sample_scan (initial ∅) [Change "http.foo"] in
  let st1 := step URL.constructs sample_scan st Click in
  reachable URL.constructs sample_scan st
  /\ isScanning st = false
  /\ validateUrl URL.constructs (url st) = false
  /\ error_focused st st1 = true
  /\ error_focused st1 (step URL.constructs sample_scan st1 Click) = false.
Proof.
  intros st st1.
  assert (Hr : reachable URL.constructs sample_scan st)
    by apply reachable_run, reachable_initial.
  assert (Hs : isScanning st = false) by reflexivity.
  assert (Hv : validateUrl URL.constructs (url st) = false) by (vm_compute; reflexivity).
  pose proof (alert_focused_once _ _ st Hr Hs Hv) as (H1 & _ & H3).
  split; [exact Hr|]. split; [exact Hs|]. split; [exact Hv|]. split; [exact H1|exact H3].
Defined.

(** ** Ranking and the issue summary *)

(** X11: ranking changes nothing in a list that is already in severity
    order; in particular ranking twice is ranking once. *)
Theorem rank_fixes_ordered_lists (l : list Issue.t) :
  Sorted severity_le l -> rank l = l /\ rank (rank l) = rank l.
Proof.
  intros Hs. split.
  - symmetry. now apply ranked_unique.
  - symmetry. apply ranked_unique; [apply rank_sorted | reflexivity].
Qed.

Lemma rank_fixes_ordered_lists_witness :
  let l := [sample_issue "a" critical; sample_issue "b" critical;
            sample_issue "c" minor] in
  Sorted severity_le l /\ rank l = l.
Proof.
  intros l.
  assert (Hs : Sorted severity_le l)
    by (repeat constructor; unfold severity_le; simpl; lia).
  split; [exact Hs|]. exact (proj1 (rank_fixes_ordered_lists l Hs)).
Defined.

Lemma severity_eqb_has_severity (s : Severity) (i : Issue.t) :
  severity_eqb (Issue.severity i) s = has_severity s i.
Proof. unfold has_severity. now destruct (Issue.severity i), s. Qed.

Lemma count_severity_filter (s : Severity) (l : list Issue.t) :
  count_severity s l = length (List.filter (has_severity s) l).
Proof.
  unfold count_severity. f_equal. apply List.filter_ext.
  intros i. apply severity_eqb_has_severity.
Qed.

Lemma count_severity_total (l : list Issue.t) :
  length l
  = count_severity critical l + count_severity moderate l + count_severity minor l.
Proof.
  unfold count_severity. induction l as [|i l IH]; [reflexivity|].
  cbn [List.filter length]. destruct (Issue.severity i); simpl; lia.
Qed.

Lemma summarize_rank (l : list Issue.t) : summarize (rank l) = summarize l.
Proof.
  unfold summarize. rewrite !count_severity_filter, !rank_filter.
  f_equal. symmetry. apply Permutation_length, rank_perm.
Qed.

(** X12: when the results are shown, the header's figures are those of
    the stored issues, whatever order they were stored in: the number
    found is the number of cards in the grid, and it is the sum of the
    critical, moderate and minor counts. *)
Theorem summary_counts_add_up
    (st : State) (r : ScanResult.t) (elements : list Issue.t) :
  result st = Some r ->
  isScanning st = false ->
  heap st !! ScanResult.issues r = Some elements ->
  issue_summary st = Some (summarize elements)
  /\ length <$> issues_grid st = Some (found (summarize elements))
  /\ found (summarize elements)
     = criticalCount (summarize elements) + moderateCount (summarize elements)
       + minorCount (summarize elements).
Proof.
  intros Hres Hs Hh.
  unfold issue_summary, issues_grid, sortedIssues. rewrite Hres, Hh, Hs. simpl.
  rewrite lookup_insert_eq. simpl. fold (rank elements).
  split; [now rewrite summarize_rank|].
  split; [f_equal; symmetry; apply Permutation_length, rank_perm|].
  apply count_severity_total.
Qed.

Lemma summary_counts_add_up_witness :
  let st := run URL.constructs sample_scan (initial ∅)
                [Change "example.com"; Click; Timeout] in
  let r := ScanResult.mk "https://example.com" "2024-01-01T00:00:00.000Z" 72 "fair"
                         1%positive [] in
  result st = Some r
  /\ isScanning st = false
  /\ heap st !! ScanResult.issues r = Some sample_issues
  /\ issue_summary st = Some (mkSummary 3 1 1 1).
Proof.
  intros st r.
  assert (Hres : result st = Some r) by (vm_compute; reflexivity).
  assert (Hs : isScanning st = false) by reflexivity.
  assert (Hh : heap st !! ScanResult.issues r = Some sample_issues)
    by (vm_compute; reflexivity).
  split; [exact Hres|]. split; [exact Hs|]. split; [exact Hh|].
  exact (proj1 (summary_counts_add_up st r sample_issues Hres Hs Hh)).
Defined.

(** ** The issue cards *)

(** X13: a card starts collapsed, and after [n] clicks on its header it
    is expanded exactly when [n] is odd. *)
Theorem card_expanded_iff_odd_clicks (n : nat) :
  Nat.iter n IssueCard.onClick IssueCard.initial = Nat.odd n.
Proof.
  induction n as [|n IH]; [reflexivity|].
  change (Nat.iter (S n) IssueCard.onClick IssueCard.initial)
    with (IssueCard.onClick (Nat.iter n IssueCard.onClick IssueCard.initial)).
  rewrite IH, Nat.odd_succ. unfold IssueCard.onClick. apply Nat.negb_odd.
Qed.

Lemma card_id_in (s : string) (cards : list Issue.t) :
  In s (flat_map IssueCard.ids cards) ->
  exists i, In i cards /\ (s = IssueCard.header_id i \/ s = IssueCard.content_id i).
Proof.
  intros H. apply in_flat_map in H as (i & Hi & Hs). exists i. split; [exact Hi|].
  simpl in Hs. destruct Hs as [<-|[<-|[]]]; auto.
Qed.

Lemma header_id_inj (i j : Issue.t) :
  IssueCard.header_id i = IssueCard.header_id j -> Issue.id i = Issue.id j.
Proof. unfold IssueCard.header_id. simpl. intros H. now injection H. Qed.

Lemma content_id_inj (i j : Issue.t) :
  IssueCard.content_id i = IssueCard.content_id j -> Issue.id i = Issue.id j.
Proof. unfold IssueCard.content_id. simpl. intros H. now injection H. Qed.

Lemma header_id_not_content_id (i j : Issue.t) :
  IssueCard.header_id i <> IssueCard.content_id j.
Proof. unfold IssueCard.header_id, IssueCard.content_id. simpl. discriminate. Qed.

(** Cards of issues with different ids share no element id. *)
Lemma card_ids_NoDup (cards : list Issue.t) :
  NoDup (map Issue.id cards) -> NoDup (flat_map IssueCard.ids cards).
Proof.
  induction cards as [|i cards IH]; simpl; intros H; [constructor|].
  apply NoDup_cons in H as [Hi Hn].
  assert (Hfresh : forall j, In j cards -> Issue.id i <> Issue.id j).
  { intros j Hj E. apply Hi. rewrite E. apply list_elem_of_In. now apply in_map. }
  apply NoDup_cons. split.
  - rewrite list_elem_of_In. simpl. intros [E|Hin].
    + now apply (header_id_not_content_id i i).
    + apply card_id_in in Hin as (j & Hj & [E|E]).
      * now apply (Hfresh j Hj), header_id_inj.
      * now apply (header_id_not_content_id i j).
  - apply NoDup_cons. split; [|now apply IH].
    rewrite list_elem_of_In. intros Hin.
    apply card_id_in in Hin as (j & Hj & [E|E]).
    + now apply (header_id_not_content_id j i).
    + now apply (Hfresh j Hj), content_id_inj.
Qed.

(** No card id is one of the page's own ids. *)
Lemma card_id_not_static (s : string) (cards : list Issue.t) :
  In s ["scanner-main"; "scanner-heading"; "url-input"; "url-error";
        "results-heading"; "issues-heading"] ->
  ~ In s (flat_map IssueCard.ids cards).
Proof.
  intros Hs Hin. apply card_id_in in Hin as (j & _ & [E|E]);
    unfold IssueCard.header_id, IssueCard.content_id in E; simpl in *;
    repeat (destruct Hs as [<-|Hs]; [discriminate E|]); exact Hs.
Qed.

(** X14: if the issues shown have pairwise different ids, no two
    elements of the rendered page have the same id, in any state. *)
Theorem page_ids_unique (st : State) :
  NoDup (map Issue.id (default [] (issues_grid st))) ->
  NoDup (page_ids st).
Proof.
  intros H. apply card_ids_NoDup in H.
  pose proof (fun s => card_id_not_static s (default [] (issues_grid st))) as Hc.
  set (cards := flat_map IssueCard.ids (default [] (issues_grid st))) in *.
  assert (Hfull : NoDup (["scanner-main"; "scanner-heading"; "url-input"; "url-error";
                          "results-heading"; "issues-heading"] ++ cards)).
  { apply NoDup_app. split; [|split; [|exact H]].
    - apply (bool_decide_unpack _). vm_compute. exact I.
    - intros s Hs. rewrite list_elem_of_In in *. now apply Hc. }
  refine (sublist_NoDup _ _ Hfull _).
  unfold page_ids. fold cards.
  destruct (error_truthy st), (result st) as [r|], (isScanning st); simpl;
    repeat first
      [ apply sublist_nil_l
      | apply sublist_skip
      | apply sublist_cons
      | reflexivity ].
Qed.

Lemma page_ids_unique_witness :
  let st := run URL.constructs sample_scan (initial ∅)
                [Change "example.com"; Click; Timeout; Change EmptyString; Click] in
  NoDup (map Issue.id (default [] (issues_grid st)))
  /\ length (page_ids st) = 12
  /\ NoDup (page_ids st).
Proof.
  intros st.
  assert (H : NoDup (map Issue.id (default [] (issues_grid st))))
    by (apply (bool_decide_unpack _); vm_compute; exact I).
  split; [exact H|]. split; [vm_compute; reflexivity|].
  exact (page_ids_unique st H).
Defined.

Lemma split_on_whitespace_plain (token l : list ascii) :
  Forall (fun c => HTML.is_ascii_whitespace c = false) l ->
  HTML.split_on_whitespace token l
  = if URL.is_empty (token ++ l) then [] else [token ++ l].
Proof.
  intros H. revert token. induction H as [|c l Hc _ IH]; intros token; simpl.
  - now rewrite app_nil_r.
  - rewrite Hc, IH, <- app_assoc. reflexivity.
Qed.

(** A value without whitespace names one id: itself. *)
Lemma tokens_plain (value : string) :
  plain_id value -> value <> EmptyString -> HTML.tokens value = [value].
Proof.
  intros Hv Hn. unfold HTML.tokens.
  rewrite split_on_whitespace_plain by exact Hv.
  destruct value as [|c value]; [contradiction|].
  change ([string_of_list_ascii (list_ascii_of_string (String c value))]
          = [String c value]).
  now rewrite string_of_list_ascii_of_string.
Qed.

Lemma plain_id_append (prefix id : string) :
  plain_id prefix -> plain_id id -> plain_id (prefix +:+ id).
Proof.
  unfold plain_id. induction prefix as [|c prefix IH]; simpl; intros Hp Hi; [exact Hi|].
  inversion Hp; subst. constructor; [assumption|]. now apply IH.
Qed.

Lemma card_references_plain (issue : Issue.t) :
  plain_id (Issue.id issue) ->
  IssueCard.references issue
  = [IssueCard.content_id issue; IssueCard.header_id issue].
Proof.
  intros Hi. unfold IssueCard.references, IssueCard.aria_controls,
    IssueCard.aria_labelledby, IssueCard.content_id, IssueCard.header_id.
  rewrite !tokens_plain; [reflexivity| | | |];
    try (simpl; discriminate);
    apply plain_id_append; try assumption; repeat constructor.
Qed.

Lemma card_references_resolve (cards : list Issue.t) :
  Forall (fun i => plain_id (Issue.id i)) cards ->
  Forall (fun r => In r (flat_map IssueCard.ids cards))
         (flat_map IssueCard.references cards).
Proof.
  intros Hp. apply List.Forall_forall. intros r Hr.
  apply in_flat_map in Hr as (i & Hi & Hr).
  apply in_flat_map. exists i. split; [exact Hi|].
  assert (Hpi : plain_id (Issue.id i))
    by (rewrite List.Forall_forall in Hp; now apply Hp).
  rewrite (card_references_plain i Hpi) in Hr.
  simpl in *. destruct Hr as [<-|[<-|[]]]; auto.
Qed.

(** X15: if no id of the issues shown has ASCII whitespace in it, every
    id that a reference on the rendered page names (the skip link, the
    label's [htmlFor], and the id lists of [aria-labelledby],
    [aria-describedby] and the cards' [aria-controls]) is the id of an
    element that is rendered, in every state. *)
Theorem page_references_resolve (st : State) :
  Forall (fun i => plain_id (Issue.id i)) (default [] (issues_grid st)) ->
  Forall (fun r => In r (page_ids st)) (page_references st).
Proof.
  intros Hp.
  unfold page_references, page_ids, aria_describedby.
  pose proof (card_references_resolve _ Hp) as Hc.
  set (refs := flat_map IssueCard.references _) in *.
  set (ids := flat_map IssueCard.ids _) in *.
  assert (Hc' : forall pre, Forall (fun r => In r (pre ++ ids)) refs).
  { intros pre. eapply List.Forall_impl; [|exact Hc].
    intros r Hr. apply in_or_app. now right. }
  change (HTML.tokens "scanner-heading") with ["scanner-heading"].
  change (HTML.tokens "results-heading") with ["results-heading"].
  change (HTML.tokens "issues-heading") with ["issues-heading"].
  destruct (error_truthy st), (result st) as [r|], (isScanning st);
    try change (from_option HTML.tokens [] (Some "url-error")) with ["url-error"];
    simpl;
    repeat (apply Forall_cons; split; [simpl; tauto|]);
    try apply Forall_nil_2;
    try (apply (Hc' ["scanner-main"; "scanner-heading"; "url-input"; "url-error";
                     "results-heading"; "issues-heading"]));
    apply (Hc' ["scanner-main"; "scanner-heading"; "url-input";
                "results-heading"; "issues-heading"]).
Qed.

Lemma page_references_resolve_witness :
  let st := run URL.constructs sample_scan (initial ∅)
                [Change "example.com"; Click; Timeout; Change EmptyString; Click] in
  Forall (fun i => plain_id (Issue.id i)) (default [] (issues_grid st))
  /\ length (page_references st) = 12
  /\ Forall (fun r => In r (page_ids st)) (page_references st).
Proof.
  intros st.
  assert (Hp : Forall (fun i => plain_id (Issue.id i)) (default [] (issues_grid st))).
  { change (default [] (issues_grid st)) with (rank sample_issues).
    repeat constructor. }
  split; [exact Hp|]. split; [vm_compute; reflexivity|].
  exact (page_references_resolve st Hp).
Defined.

(** ** A scan that never ends *)

Lemma stuck_step
    (newURL : string -> bool)
    (generateMockResult : string -> store -> option (ScanResult.t * store))
    (st : State) (e : Event) :
  isScanning st = true -> suspended st = [] ->
  let st' := step newURL generateMockResult st e in
  isScanning st' = true /\ suspended st' = []
  /\ url st' = url st /\ error st' = error st
  /\ result st' = result st /\ calls st' = calls st.
Proof.
  intros Hs Hq. destruct e as [v| |k| |]; simpl.
  - rewrite Hs. repeat split; assumption.
  - rewrite Hs. repeat split; assumption.
  - unfold handleKeyDown. rewrite Hs, andb_false_r. repeat split; assumption.
  - rewrite Hq. repeat split; assumption.
  - unfold sortedIssues. destruct (result st) as [r|] eqn:E; simpl.
    + destruct (heap st !! _); simpl; rewrite ?E; repeat split; assumption.
    + rewrite ?E. repeat split; assumption.
Qed.

(** X16: a page that shows a scan as running while no call waits, which
    is how a failed collaborator call leaves it, stays that way whatever
    happens next: the scan never ends, the input keeps its text, and
    error, result and the collaborator calls stay as they are. *)
Theorem stuck_scanning_never_recovers
    (newURL : string -> bool)
    (generateMockResult : string -> store -> option (ScanResult.t * store))
    (st : State) (events : list Event) :
  isScanning st = true ->
  suspended st = [] ->
  let st' := run newURL generateMockResult st events in
  isScanning st' = true /\ suspended st' = []
  /\ url st' = url st /\ error st' = error st
  /\ result st' = result st /\ calls st' = calls st.
Proof.
  revert st. induction events as [|e events IH]; intros st Hs Hq; [simpl; repeat split; assumption|].
  destruct (stuck_step newURL generateMockResult st e Hs Hq)
    as (Hs' & Hq' & Hu & He & Hr & Hc).
  destruct (IH _ Hs' Hq') as (H1 & H2 & H3 & H4 & H5 & H6).
  simpl in *. repeat split; congruence.
Qed.

Lemma stuck_scanning_never_recovers_witness :
  let st := run URL.constructs failing_scan (initial ∅)
                [Change "example.com"; Click; Timeout] in
  let events := [Click; Timeout; KeyDown "Enter"; Change "other.org"; Render; Timeout] in
  isScanning st = true
  /\ suspended st = []
  /\ isScanning (run URL.constructs failing_scan st events) = true.
Proof.
  intros st events.
  assert (Hs : isScanning st = true) by reflexivity.
  assert (Hq : suspended st = []) by reflexivity.
  split; [exact Hs|]. split; [exact Hq|].
  exact (proj1 (stuck_scanning_never_recovers _ _ st events Hs Hq)).
Defined.
